(** * pytorch-lifestream: the padded batch container, the GPT dataset
      classes and the training dispatcher

    A shallow embedding of

    - [ptls/nn/trx_encoder/padded_batch.py]  (class [PaddedBatch]),
    - [ptls/frames/gpt/gpt_dataset.py]       (classes [GptDataset] and
      [GptIterableDataset]),
    - [pl_train_module.py]                   (function [main]),

    followed by the properties of these three files. *)

From stdpp Require Import base option list strings pretty gmap.
From Stdlib Require Import ZArith Lia.

Set Warnings "-register-all".
Local Open Scope nat_scope.

(** ** Python outcomes

    A Python expression either yields a value or raises.  Only the exception
    classes that the modelled code can meet are listed. *)

Inductive PyExn :=
  | AttributeError (msg : string)
  | IndexError
  | KeyError (key : string)
  | NotImplementedError (msg : string)
  | RuntimeError (msg : string)
  | StopIteration
  | TypeError (msg : string)
  | ValueError (msg : string).

Inductive result (A : Type) :=
  | Ok (a : A)
  | Raise (e : PyExn).
Arguments Ok {A} a.
Arguments Raise {A} e.

Global Instance result_ret : MRet result := fun _ a => Ok a.
Global Instance result_bind : MBind result := fun _ _ f r =>
  match r with Ok a => f a | Raise e => Raise e end.
Global Instance result_fmap : FMap result := fun _ _ f r =>
  match r with Ok a => Ok (f a) | Raise e => Raise e end.

(** A computation over a store [S]: the store survives a raised exception,
    as a Python heap or the outside world does. *)

Definition M (S A : Type) : Type := S -> S * result A.

Global Instance M_ret {S} : MRet (M S) := fun _ a s => (s, Ok a).
Global Instance M_bind {S} : MBind (M S) := fun _ _ f m s =>
  match m s with
  | (s', Ok a) => f a s'
  | (s', Raise e) => (s', Raise e)
  end.

Definition throw {S A} (e : PyExn) : M S A := fun s => (s, Raise e).
Definition lift {S A} (r : result A) : M S A := fun s => (s, r).

(** ** Tensors of the numeric library

    What [padded_batch.py] uses of [torch]: a tensor has a device, an element
    type, a shape and its elements in row-major order.  Elements are kept as
    integers: the value itself for [Int64], 0 or 1 for [Bool], and the stored
    word for [Float32] (floating elements are only carried around by the code
    below, never computed with). *)

Module torch.

Inductive Device :=
  | cpu
  | cuda (index : nat).

Global Instance Device_eq_dec : EqDecision Device.
Proof. solve_decision. Defined.

Inductive DType := Int64 | Float32 | Bool.

Global Instance DType_eq_dec : EqDecision DType.
Proof. solve_decision. Defined.

Record Tensor := mkTensor {
  t_device : Device;
  t_dtype : DType;
  t_shape : list nat;
  t_data : list Z
}.

Definition numel (s : list nat) : nat := foldr Nat.mul 1 s.

(** The tensor invariant: as many elements as the shape announces. *)
Definition tensor_ok (t : Tensor) : Prop :=
  length (t_data t) = numel (t_shape t).

(** Row-major position of a multi-index, and back. *)
Fixpoint ravel (s idx : list nat) : nat :=
  match s, idx with
  | _ :: ds, i :: is' => i * numel ds + ravel ds is'
  | _, _ => 0
  end.

Fixpoint unravel (s : list nat) (k : nat) : list nat :=
  match s with
  | [] => []
  | _ :: ds => (k / numel ds) :: unravel ds (k mod numel ds)
  end.

Definition in_bounds (s idx : list nat) : Prop := Forall2 lt idx s.

Global Instance in_bounds_dec s idx : Decision (in_bounds s idx).
Proof. unfold in_bounds. apply _. Defined.

(** [t[idx]], for a full multi-index. *)
Definition item (t : Tensor) (idx : list nat) : option Z :=
  if decide (in_bounds (t_shape t) idx)
  then t_data t !! ravel (t_shape t) idx
  else None.

Definition read (t : Tensor) (idx : list nat) : Z :=
  default 0%Z (t_data t !! ravel (t_shape t) idx).

(** The elements of a tensor of shape [s] given position by position. *)
Definition tabulate (s : list nat) (f : list nat -> Z) : list Z :=
  (fun k => f (unravel s k)) <$> seq 0 (numel s).

(** [t.size()] and [len(t)]. *)
Definition size (t : Tensor) : list nat := t_shape t.

Definition len (t : Tensor) : result nat :=
  match t_shape t with
  | [] => Raise (TypeError "len() of a 0-d tensor")
  | d :: _ => Ok d
  end.

(** [torch.arange(n, device=d)]. *)
Definition arange (n : nat) (d : Device) : Tensor :=
  mkTensor d Int64 [n] (Z.of_nat <$> seq 0 n).

(** [t.unsqueeze(dim)], for a dimension counted from the front. *)
Definition unsqueeze (dim : nat) (t : Tensor) : result Tensor :=
  if decide (dim <= length (t_shape t))
  then Ok (mkTensor (t_device t) (t_dtype t)
             (take dim (t_shape t) ++ 1 :: drop dim (t_shape t)) (t_data t))
  else Raise IndexError.

(** Broadcasting aligns shapes at their last dimension; a dimension of
    extent 1 is repeated. *)
Definition bcast_index (src idx : list nat) : list nat :=
  zip_with (fun d i => if decide (d = 1) then 0 else i)
    src (drop (length idx - length src) idx).

Fixpoint broadcast_rev (a b : list nat) : option (list nat) :=
  match a, b with
  | [], _ => Some b
  | _, [] => Some a
  | x :: a', y :: b' =>
      if decide (x = y) then (x ::.) <$> broadcast_rev a' b'
      else if decide (x = 1) then (y ::.) <$> broadcast_rev a' b'
      else if decide (y = 1) then (x ::.) <$> broadcast_rev a' b'
      else None
  end.

Definition broadcast_shapes (a b : list nat) : option (list nat) :=
  reverse <$> broadcast_rev (reverse a) (reverse b).

(** [t.expand(B, T)]: every existing dimension must have the requested
    extent or extent 1. *)
Fixpoint expandable_rev (src sizes : list nat) : bool :=
  match src, sizes with
  | [], _ => true
  | _ :: _, [] => false
  | d :: src', n :: sizes' =>
      (bool_decide (d = n) || bool_decide (d = 1)) && expandable_rev src' sizes'
  end.

Definition expand (t : Tensor) (sizes : list nat) : result Tensor :=
  if expandable_rev (reverse (t_shape t)) (reverse sizes)
  then Ok (mkTensor (t_device t) (t_dtype t) sizes
             (tabulate sizes (fun idx => read t (bcast_index (t_shape t) idx))))
  else Raise (RuntimeError "expand: incompatible sizes").

Definition is_floating (d : DType) : bool :=
  match d with Float32 => true | _ => false end.

(** [a < b]: both operands on one device, shapes broadcast, the result a
    [Bool] tensor.  The comparison is the integer one; the code below only
    compares integer tensors, and floating operands are refused here rather
    than compared as words. *)
Definition lt (a b : Tensor) : result Tensor :=
  if decide (t_device a = t_device b) then
    if is_floating (t_dtype a) || is_floating (t_dtype b)
    then Raise (TypeError "floating comparison is outside this model")
    else
      match broadcast_shapes (t_shape a) (t_shape b) with
      | Some s =>
          Ok (mkTensor (t_device a) Bool s
                (tabulate s (fun idx =>
                   if (read a (bcast_index (t_shape a) idx)
                       <? read b (bcast_index (t_shape b) idx))%Z
                   then 1%Z else 0%Z)))
      | None => Raise (RuntimeError "shapes cannot be broadcast")
      end
  else Raise (RuntimeError "tensors on different devices").

(** [t.long()]. *)
Definition long (t : Tensor) : result Tensor :=
  if is_floating (t_dtype t)
  then Raise (TypeError "floating conversion is outside this model")
  else Ok (mkTensor (t_device t) Int64 (t_shape t) (t_data t)).

(** The value produced by [t.to(device=d)] when a copy is needed. *)
Definition moved (d : Device) (t : Tensor) : Tensor :=
  mkTensor d (t_dtype t) (t_shape t) (t_data t).

End torch.

(** ** The Python heap

    Tensors and dictionaries are objects reached through references, so that
    two containers can share an array and an update, if there were one, would
    be seen through both.  A cell is never freed. *)

Definition loc := nat.

Inductive Value :=
  | VTensor (t : torch.Tensor)
  | VDict (items : list (string * loc)).

Definition Heap := list Value.

Definition alloc (v : Value) : M Heap loc :=
  fun h => (h ++ [v], Ok (length h)).

Definition deref (l : loc) : M Heap Value :=
  fun h =>
    match h !! l with
    | Some v => (h, Ok v)
    | None => (h, Raise (RuntimeError "reference outside the heap"))
    end.
(* A reference held by a Python object always points into the heap; the
   second case only makes [deref] total. *)

(** The receiver of a tensor method: any other object lacks the attribute. *)
Definition tensor_of (l : loc) (attr : string) : M Heap torch.Tensor :=
  v ← deref l;
  match v with
  | VTensor t => mret t
  | VDict _ => throw (AttributeError attr)
  end.

(** A computation that only reads the heap, and one that at most adds cells
    to it. *)
Definition reads {A} (m : M Heap A) : Prop := forall h, (m h).1 = h.

Definition grows {A} (m : M Heap A) : Prop :=
  forall h, h `prefix_of` (m h).1.

(** ** [padded_batch.py] *)

Module PaddedBatch.
Import torch.

(** [__init__] stores its two arguments; the object is this pair of
    references. *)
Record PaddedBatch := __init__ {
  _payload : loc;
  _length : loc
}.

Definition payload (self : PaddedBatch) : loc := _payload self.

Definition seq_lens (self : PaddedBatch) : loc := _length self.

Definition device (self : PaddedBatch) : M Heap Device :=
  length ← tensor_of (_length self) "device";
  mret (t_device length).

Definition __len__ (self : PaddedBatch) : M Heap nat :=
  v ← deref (_length self);
  match v with
  | VTensor t => lift (torch.len t)
  | VDict items => mret (length items)
  end.

(** [v.to(device=device, non_blocking=non_blocking)]: a tensor already on
    the device is returned as it is, otherwise a copy is made there.  The
    flag only schedules the copy. *)
Definition tensor_to (v : loc) (device : Device) (non_blocking : bool)
  : M Heap loc :=
  t ← tensor_of v "to";
  if decide (t_device t = device) then mret v
  else alloc (VTensor (moved device t)).

(** [{k: v.to(...) for k, v in items}]. *)
Fixpoint dict_comprehension (items : list (string * loc)) (device : Device)
    (non_blocking : bool) : M Heap (list (string * loc)) :=
  match items with
  | [] => mret []
  | (k, v) :: rest =>
      v' ← tensor_to v device non_blocking;
      rest' ← dict_comprehension rest device non_blocking;
      mret ((k, v') :: rest')
  end.

Definition to (self : PaddedBatch) (device : Device) (non_blocking : bool)
  : M Heap PaddedBatch :=
  length ← tensor_to (_length self) device non_blocking;
  p ← deref (_payload self);
  items ← match p with
          | VDict items => mret items
          | VTensor _ =>
              throw (AttributeError "'Tensor' object has no attribute 'items'")
          end;
  items' ← dict_comprehension items device non_blocking;
  payload ← alloc (VDict items');
  mret (__init__ payload length).

(** [B, T = ...]: unpacking into exactly two names. *)
Definition unpack2 (s : list nat) : result (nat * nat) :=
  match s with
  | [B; T] => Ok (B, T)
  | _ => Raise (ValueError "unpack: expected 2 values")
  end.

Definition seq_len_mask (self : PaddedBatch) : M Heap Tensor :=
  p ← deref (_payload self);
  '(B, T) ← match p with
            | VDict items =>
                match items with
                | [] => throw StopIteration
                | (_, v) :: _ =>
                    t ← tensor_of v "size";
                    lift (unpack2 (size t))
                end
            | VTensor t => lift (unpack2 (take 2 (size t)))
            end;
  length ← tensor_of (_length self) "device";
  row ← lift (unsqueeze 0 (arange T (t_device length)));
  grid ← lift (expand row [B; T]);
  column ← lift (unsqueeze 1 length);
  mask ← lift (lt grid column);
  lift (long mask).

(** The last five steps of [seq_len_mask], once [B] and [T] are known, under
    a name of their own for the proofs. *)
Definition mask_steps (B T : nat) (length : Tensor) : M Heap Tensor :=
  row ← lift (unsqueeze 0 (arange T (t_device length)));
  grid ← lift (expand row [B; T]);
  column ← lift (unsqueeze 1 length);
  mask ← lift (lt grid column);
  lift (long mask).

(** A batch as the data model describes it: [length] is an integer tensor of
    shape [(B,)], and the payload is a non-empty dictionary of [(B, T)]
    tensors, or one tensor of shape [(B, T)] or [(B, T, H)]. *)
Definition is_length (h : Heap) (l : loc) (B : nat) : Prop :=
  exists t, h !! l = Some (VTensor t) /\ t_shape t = [B]
            /\ t_dtype t = Int64 /\ tensor_ok t.

Definition is_feature (h : Heap) (B T : nat) (kv : string * loc) : Prop :=
  exists t, h !! kv.2 = Some (VTensor t) /\ t_shape t = [B; T] /\ tensor_ok t.

Inductive is_payload (h : Heap) (l : loc) (B T : nat) : Prop :=
  | payload_dict items :
      h !! l = Some (VDict items) -> items <> [] ->
      Forall (is_feature h B T) items -> is_payload h l B T
  | payload_features t :
      h !! l = Some (VTensor t) -> t_shape t = [B; T] -> tensor_ok t ->
      is_payload h l B T
  | payload_embedding t H :
      h !! l = Some (VTensor t) -> t_shape t = [B; T; H] -> tensor_ok t ->
      is_payload h l B T.

Definition valid (h : Heap) (self : PaddedBatch) (B T : nat) : Prop :=
  is_payload h (_payload self) B T /\ is_length h (_length self) B.

(** [length[i]] of a batch, read through the heap. *)
Definition length_at (h : Heap) (self : PaddedBatch) (i : nat) : option Z :=
  match h !! _length self with
  | Some (VTensor t) => item t [i]
  | _ => None
  end.

(** A feature of a transferred batch: the same key, the same array, on the
    target device. *)
Definition same_feature (h h' : Heap) (dev : Device) (kv kv' : string * loc)
  : Prop :=
  kv.1 = kv'.1
  /\ exists t, h !! kv.2 = Some (VTensor t)
              /\ h' !! kv'.2 = Some (VTensor (moved dev t)).

(** What [seq_len_mask] itself needs of the payload: the first feature of a
    dictionary, or the tensor, starts with the extents [B] and [T]. *)
Inductive sized (h : Heap) (l : loc) (B T : nat) : Prop :=
  | sized_dict k v rest t :
      h !! l = Some (VDict ((k, v) :: rest)) ->
      h !! v = Some (VTensor t) -> t_shape t = [B; T] -> sized h l B T
  | sized_tensor t :
      h !! l = Some (VTensor t) -> take 2 (t_shape t) = [B; T] ->
      sized h l B T.

(** A feature found again unchanged: the same key and the same array. *)
Definition same_tensor (h h' : Heap) (kv kv' : string * loc) : Prop :=
  kv.1 = kv'.1
  /\ exists t, h !! kv.2 = Some (VTensor t) /\ h' !! kv'.2 = Some (VTensor t).

(** A feature that is a tensor on device [dev]. *)
Definition feature_on (h : Heap) (dev : Device) (kv : string * loc) : Prop :=
  exists t, h !! kv.2 = Some (VTensor t) /\ t_device t = dev.

(** Row [i] of a two-dimensional tensor, and the sum of a list of elements. *)
Definition row (t : Tensor) (i : nat) : list Z :=
  match t_shape t with
  | [_; T] => take T (drop (i * T) (t_data t))
  | _ => []
  end.

Definition sum (l : list Z) : Z := foldr Z.add 0%Z l.

End PaddedBatch.

(** ** Python classes

    A class statement computes the method resolution order of the new class
    by C3 linearisation of the orders of its bases; an attribute of a class is
    found in the namespace of the first class of its order that has it. *)

Module py_class.
Section linearisation.
Context {C : Type} `{EqDecision C}.

Definition in_tail (c : C) (s : list C) : bool := bool_decide (c ∈ tail s).

Definition is_candidate (seqs : list (list C)) (c : C) : bool :=
  forallb (fun s => negb (in_tail c s)) seqs.

(** The head of the first sequence whose head is in no tail. *)
Fixpoint next_candidate (seqs rest : list (list C)) : option C :=
  match rest with
  | [] => None
  | [] :: rest' => next_candidate seqs rest'
  | (c :: _) :: rest' =>
      if is_candidate seqs c then Some c else next_candidate seqs rest'
  end.

Definition drop_head (c : C) (s : list C) : list C :=
  match s with
  | x :: t => if decide (x = c) then t else s
  | [] => []
  end.

Definition exhausted (seqs : list (list C)) : bool :=
  forallb (fun s => bool_decide (s = [])) seqs.

Definition total (seqs : list (list C)) : nat :=
  foldr (fun s n => length s + n) 0 seqs.

(** Every round removes a class from the sequences, so [total seqs] rounds
    are enough. *)
Fixpoint merge_rounds (rounds : nat) (seqs : list (list C)) : result (list C) :=
  match rounds with
  | 0 => Ok []
  | S rounds' =>
      if exhausted seqs then Ok []
      else
        match next_candidate seqs seqs with
        | Some c => (c ::.) <$> merge_rounds rounds' (drop_head c <$> seqs)
        | None =>
            Raise (TypeError "Cannot create a consistent method resolution order")
        end
  end.

Definition merge (seqs : list (list C)) : result (list C) :=
  merge_rounds (total seqs) seqs.

(** [class cls(bases): ...], each base given with its own order. *)
Definition class_statement (cls : C) (bases : list (C * list C))
  : result (list C) :=
  (cls ::.) <$> merge ((snd <$> bases) ++ [fst <$> bases]).

Context {Op : Type}.

(** The class of an order that defines [name] first. *)
Fixpoint definer (ns : C -> gmap string Op) (mro : list C) (name : string)
  : option C :=
  match mro with
  | [] => None
  | c :: rest =>
      if decide (is_Some (ns c !! name)) then Some c else definer ns rest name
  end.

Definition getattr (ns : C -> gmap string Op) (mro : list C) (name : string)
  : option Op :=
  c ← definer ns mro name; ns c !! name.

End linearisation.
End py_class.

(** ** [gpt_dataset.py] *)

Module gpt_dataset.
Import py_class.

(** The classes in scope: the two imported ones with whatever they inherit
    from, known by name, and the two this file defines. *)
Inductive Class :=
  | Imported (name : string)
  | GptDataset
  | GptIterableDataset.

Global Instance Class_eq_dec : EqDecision Class.
Proof. solve_decision. Defined.

Definition MlmDataset : string := "MlmDataset".
Definition IterableDataset : string := "IterableDataset".

Section classes.
Context {Op : Type}.

(** The imported classes are not in this file: their resolution orders and
    namespaces are parameters. *)
Variable imported_mro : string -> list string.
Variable imported_dict : string -> gmap string Op.

Definition mro_of_imported (name : string) : list Class :=
  Imported <$> imported_mro name.

(** [class GptDataset(MlmDataset): pass] *)
Definition GptDataset_mro : result (list Class) :=
  class_statement GptDataset
    [(Imported MlmDataset, mro_of_imported MlmDataset)].

(** [class GptIterableDataset(GptDataset, torch.utils.data.IterableDataset):
    pass] *)
Definition GptIterableDataset_mro : result (list Class) :=
  base ← GptDataset_mro;
  class_statement GptIterableDataset
    [(GptDataset, base);
     (Imported IterableDataset, mro_of_imported IterableDataset)].

(** The operations each class defines itself.  Both bodies are [pass]: they
    define none.  (What every class statement records by itself, such as
    [__module__], [__qualname__] and [__doc__], is not an operation and is
    left out.) *)
Definition namespace (c : Class) : gmap string Op :=
  match c with
  | Imported name => imported_dict name
  | GptDataset => ∅
  | GptIterableDataset => ∅
  end.

End classes.

(** The names of the imported classes of an order, for the proofs. *)
Definition imported_names (l : list Class) : list string :=
  omap (fun c => match c with Imported name => Some name | _ => None end) l.

End gpt_dataset.

(** ** [pl_train_module.py] *)

Module pl_train_module.

(** Modelled from the spec: the configuration object, which [get_conf]
    (not in this repository's sources) returns.  The spec leaves its format
    open beyond key access: a tree of named blocks whose leaves are strings
    or integers, read by [conf[key]] with a dotted key, by attribute access
    and by [key in conf]. *)
Inductive ConfValue :=
  | CStr (s : string)
  | CInt (z : Z)
  | CTree (items : list (string * ConfValue)).

Fixpoint assoc {A} (k : string) (items : list (string * A)) : option A :=
  match items with
  | [] => None
  | (k', v) :: rest => if String.eqb k k' then Some v else assoc k rest
  end.

(** ["a.b.c"] names the path [a], [b], [c]. *)
Definition dot : Ascii.ascii := Ascii.ascii_of_nat 46.

Fixpoint path_of (key : string) : list string :=
  match key with
  | EmptyString => [EmptyString]
  | String c rest =>
      if Ascii.eqb c dot then EmptyString :: path_of rest
      else
        match path_of rest with
        | p :: ps => String c p :: ps
        | [] => [String c EmptyString]
        end
  end.

Fixpoint lookup_path (v : ConfValue) (path : list string) : option ConfValue :=
  match path with
  | [] => Some v
  | k :: rest =>
      match v with
      | CTree items =>
          match assoc k items with
          | Some c => lookup_path c rest
          | None => None
          end
      | _ => None
      end
  end.

(** [conf[key]].  A key that is not there makes the look-up raise; the class
    of that exception is the configuration library's own, and [KeyError]
    stands for it here. *)
Definition getitem (conf : ConfValue) (key : string) : result ConfValue :=
  match lookup_path conf (path_of key) with
  | Some v => Ok v
  | None => Raise (KeyError key)
  end.

(** [key in conf] *)
Definition contains (conf : ConfValue) (key : string) : bool :=
  bool_decide (is_Some (lookup_path conf (path_of key))).

(** [name == value], for a class name and a configuration value. *)
Definition name_eq (name : string) (v : ConfValue) : bool :=
  match v with
  | CStr s => String.eqb name s
  | _ => false
  end.

(** The components a configuration can select, as imported at the top of the
    file. *)
Inductive DataModule := ColesDataModuleTrain | CpcDataModuleTrain.
Inductive PlModule := CoLESModule | CpcModule.

(** Modelled from the spec: the names of the four imported classes (their
    definitions are not in this repository's sources); the spec calls them
    the known data-component and objective-component names. *)
Definition DataModule__name__ (m : DataModule) : string :=
  match m with
  | ColesDataModuleTrain => "ColesDataModuleTrain"
  | CpcDataModuleTrain => "CpcDataModuleTrain"
  end.

Definition PlModule__name__ (m : PlModule) : string :=
  match m with
  | CoLESModule => "CoLESModule"
  | CpcModule => "CpcModule"
  end.

(** Objects built by the framework are known by a handle. *)
Definition Ref := nat.

(** What [main] asks of the outside world, in the order it asks. *)
Inductive Call :=
  | seed_everything (seed : ConfValue)
  | logger_info (msg : string)
  | new_pl_module (cls : PlModule) (params : ConfValue)
  | new_data_module (cls : DataModule) (block : ConfValue) (model : Ref)
  | Trainer (kwargs : list (string * ConfValue))
  | fit (trainer model dm : Ref)
  | save_checkpoint (trainer : Ref) (path : ConfValue) (weights_only : bool).

(** The outside world: the outcome of every call (a handle or an exception)
    and the text it prints for a configuration block.  [main] makes each call
    at most once, so an outcome per call covers every behaviour. *)
Record World := {
  respond : Call -> result Ref;
  str_block : list (string * ConfValue) -> string
}.

Definition Trace := list Call.

Definition call (w : World) (c : Call) : M Trace Ref :=
  fun tr => (tr ++ [c], respond w c).

Definition info (msg : string) : M Trace unit :=
  fun tr => (tr ++ [logger_info msg], Ok tt).

(** [f'{v}'] *)
Definition str (w : World) (v : ConfValue) : string :=
  match v with
  | CStr s => s
  | CInt z => pretty z
  | CTree items => str_block w items
  end.

(** [**block] *)
Definition kwargs_of (block : ConfValue) : result (list (string * ConfValue)) :=
  match block with
  | CTree items => Ok items
  | _ => Raise (TypeError "argument after ** must be a mapping")
  end.

Definition quote : string := String (Ascii.ascii_of_nat 34) EmptyString.

Section main.
Variable w : World.
Variable conf : ConfValue.

(** [for m in ms: if m.__name__ == conf[key]: data_module = m; break] *)
Fixpoint for_data_module (ms : list DataModule) : M Trace (option DataModule) :=
  match ms with
  | [] => mret None
  | m :: rest =>
      name ← lift (getitem conf "params.data_module_name");
      if name_eq (DataModule__name__ m) name then mret (Some m)
      else for_data_module rest
  end.

Fixpoint for_pl_module (ms : list PlModule) : M Trace (option PlModule) :=
  match ms with
  | [] => mret None
  | m :: rest =>
      name ← lift (getitem conf "params.pl_module_name");
      if name_eq (PlModule__name__ m) name then mret (Some m)
      else for_pl_module rest
  end.

(** [main], from the configuration that [get_conf(args)] returned. *)
Definition main : M Trace unit :=
  (if contains conf "seed_everything"
   then seed ← lift (getitem conf "seed_everything");
        call w (seed_everything seed);; mret tt
   else mret tt);;
  data_module ← for_data_module [ColesDataModuleTrain; CpcDataModuleTrain];
  data_module ← match data_module with
                | Some m => mret m
                | None =>
                    name ← lift (getitem conf "params.data_module_name");
                    throw (NotImplementedError
                             ("Unknown data module " +:+ str w name))
                end;
  info (DataModule__name__ data_module +:+ " used");;
  pl_module ← for_pl_module [CoLESModule; CpcModule];
  pl_module ← match pl_module with
              | Some m => mret m
              | None =>
                  name ← lift (getitem conf "params.pl_module_name");
                  throw (NotImplementedError
                           ("Unknown pl module " +:+ str w name))
              end;
  info (PlModule__name__ pl_module +:+ " used");;
  params ← lift (getitem conf "params");
  model ← call w (new_pl_module pl_module params);
  block ← lift (getitem conf "data_module");
  dm ← call w (new_data_module data_module block model);
  options ← lift (getitem conf "trainer");
  kwargs ← lift (kwargs_of options);
  trainer ← call w (Trainer kwargs);
  call w (fit trainer model dm);;
  if contains conf "model_path"
  then path ← lift (getitem conf "model_path");
       call w (save_checkpoint trainer path true);;
       path ← lift (getitem conf "model_path");
       info ("Model weights saved to " +:+ quote +:+ str w path +:+ quote)
  else mret tt.

End main.

(** The calls that build or run a component. *)
Definition is_step (c : Call) : bool :=
  match c with
  | new_pl_module _ _ | new_data_module _ _ _ | Trainer _ | fit _ _ _ => true
  | _ => false
  end.

Definition is_Trainer (c : Call) : bool :=
  match c with Trainer _ => true | _ => false end.

Definition is_save (c : Call) : bool :=
  match c with save_checkpoint _ _ _ => true | _ => false end.

(** The first statements of [main] and those after the two look-ups, under
    names of their own for the proofs. *)
Definition seeding (w : World) (conf : ConfValue) : M Trace unit :=
  if contains conf "seed_everything"
  then seed ← lift (getitem conf "seed_everything");
       call w (seed_everything seed);; mret tt
  else mret tt.

Definition construct_and_run (w : World) (conf : ConfValue)
    (data_module : DataModule) (pl_module : PlModule) : M Trace unit :=
  params ← lift (getitem conf "params");
  model ← call w (new_pl_module pl_module params);
  block ← lift (getitem conf "data_module");
  dm ← call w (new_data_module data_module block model);
  options ← lift (getitem conf "trainer");
  kwargs ← lift (kwargs_of options);
  trainer ← call w (Trainer kwargs);
  call w (fit trainer model dm);;
  if contains conf "model_path"
  then path ← lift (getitem conf "model_path");
       call w (save_checkpoint trainer path true);;
       path ← lift (getitem conf "model_path");
       info ("Model weights saved to " +:+ quote +:+ str w path +:+ quote)
  else mret tt.

(** Seeding, when the configuration asks for it, goes through. *)
Definition seeding_succeeds (w : World) (conf : ConfValue) : Prop :=
  forall seed, getitem conf "seed_everything" = Ok seed ->
               exists r, respond w (seed_everything seed) = Ok r.

(** Steps 3 to 6 of the spec, as far as a run got: the objective from the
    [params] block, the data component from the [data_module] block and that
    objective, the trainer from the [trainer] block as named options, the
    run on the pair. *)
Inductive follows_steps (w : World) (conf : ConfValue)
    (pl_module : PlModule) (data_module : DataModule) : list Call -> Prop :=
  | steps_none : follows_steps w conf pl_module data_module []
  | steps_objective params :
      getitem conf "params" = Ok params ->
      follows_steps w conf pl_module data_module
        [new_pl_module pl_module params]
  | steps_data params model block :
      getitem conf "params" = Ok params ->
      respond w (new_pl_module pl_module params) = Ok model ->
      getitem conf "data_module" = Ok block ->
      follows_steps w conf pl_module data_module
        [new_pl_module pl_module params;
         new_data_module data_module block model]
  | steps_trainer params model block dm kwargs :
      getitem conf "params" = Ok params ->
      respond w (new_pl_module pl_module params) = Ok model ->
      getitem conf "data_module" = Ok block ->
      respond w (new_data_module data_module block model) = Ok dm ->
      getitem conf "trainer" = Ok (CTree kwargs) ->
      follows_steps w conf pl_module data_module
        [new_pl_module pl_module params;
         new_data_module data_module block model;
         Trainer kwargs]
  | steps_fit params model block dm kwargs trainer :
      getitem conf "params" = Ok params ->
      respond w (new_pl_module pl_module params) = Ok model ->
      getitem conf "data_module" = Ok block ->
      respond w (new_data_module data_module block model) = Ok dm ->
      getitem conf "trainer" = Ok (CTree kwargs) ->
      respond w (Trainer kwargs) = Ok trainer ->
      follows_steps w conf pl_module data_module
        [new_pl_module pl_module params;
         new_data_module data_module block model;
         Trainer kwargs;
         fit trainer model dm].

(** A call that went through. *)
Definition run_ok (w : World) (c : Call) : Prop :=
  exists r, respond w c = Ok r.

(** What holds of the calls [evs] and the outcome [r] of the statements after
    the two look-ups. *)
Definition run_facts (w : World) (conf : ConfValue) (d : DataModule)
    (p : PlModule) (evs : list Call) (r : result unit) : Prop :=
  follows_steps w conf p d (filter is_step evs)
  /\ (forall params model block dm kwargs trainer,
        getitem conf "params" = Ok params ->
        respond w (new_pl_module p params) = Ok model ->
        getitem conf "data_module" = Ok block ->
        respond w (new_data_module d block model) = Ok dm ->
        getitem conf "trainer" = Ok (CTree kwargs) ->
        respond w (Trainer kwargs) = Ok trainer ->
        filter is_step evs
        = [new_pl_module p params; new_data_module d block model;
           Trainer kwargs; fit trainer model dm])
  /\ (forall msg, r = Raise (NotImplementedError msg) ->
        exists c, c ∈ evs /\ respond w c = Raise (NotImplementedError msg))
  /\ (contains conf "model_path" = false -> filter is_save evs = [])
  /\ (forall trainer model dm,
        fit trainer model dm ∈ evs -> run_ok w (fit trainer model dm) ->
        contains conf "model_path" = true ->
        exists path, getitem conf "model_path" = Ok path
                     /\ filter is_save evs
                        = [save_checkpoint trainer path true])
  /\ (forall c, c ∈ evs -> is_save c = true ->
        contains conf "model_path" = true
        /\ exists trainer model dm,
             fit trainer model dm ∈ evs /\ run_ok w (fit trainer model dm)).

(** Where the save stands among the calls [evs] of the statements after the
    two look-ups: nothing is saved before the run, and after a run that went
    through the next call is the save when the configuration has a
    [model_path] key, while without the key the run is the last call. *)
Definition save_order (w : World) (conf : ConfValue) (evs : list Call)
  : Prop :=
  forall trainer model dm,
    fit trainer model dm ∈ evs -> run_ok w (fit trainer model dm) ->
    exists before after,
      evs = before ++ fit trainer model dm :: after
      /\ filter is_save before = []
      /\ (contains conf "model_path" = true ->
          exists path rest,
            getitem conf "model_path" = Ok path
            /\ after = save_checkpoint trainer path true :: rest
            /\ filter is_save rest = [])
      /\ (contains conf "model_path" = false -> after = []).

(** Calls that neither build, run nor save. *)
Definition quiet (l : list Call) : Prop :=
  Forall (fun c => is_step c = false /\ is_save c = false) l.

Definition is_log (c : Call) : bool :=
  match c with logger_info _ => true | _ => false end.

Definition is_seed (c : Call) : bool :=
  match c with seed_everything _ => true | _ => false end.

(** The calls of a seeding that went through: none without the key, the one
    call with it. *)
Definition seeded (w : World) (conf : ConfValue) (pre : list Call) : Prop :=
  (contains conf "seed_everything" = false /\ pre = [])
  \/ (exists seed r,
        getitem conf "seed_everything" = Ok seed
        /\ respond w (seed_everything seed) = Ok r
        /\ pre = [seed_everything seed]).

(** Where an exception of the statements after the two look-ups comes from:
    the last call made, the look-up of one of the three blocks, or the
    unpacking of the [trainer] entry. *)
Definition raise_facts (w : World) (conf : ConfValue) (evs : list Call)
    (r : result unit) : Prop :=
  forall e, r = Raise e ->
    (exists c, last evs = Some c /\ is_log c = false /\ respond w c = Raise e)
    \/ (exists key, key ∈ ["params"; "data_module"; "trainer"]
                    /\ getitem conf key = Raise e)
    \/ (exists options, getitem conf "trainer" = Ok options
                        /\ kwargs_of options = Raise e).

(** What holds of the calls and the outcome of the statements after the two
    look-ups, as to failures. *)
Definition stop_facts (w : World) (evs : list Call) (r : result unit) : Prop :=
  (forall c, c ∈ evs -> is_seed c = false)
  /\ (forall c e, c ∈ evs -> is_log c = false -> respond w c = Raise e ->
        last evs = Some c /\ r = Raise e)
  /\ (forall e, r = Raise e ->
        (exists c, last evs = Some c /\ is_log c = false
                   /\ respond w c = Raise e)
        \/ (exists key, key ∈ ["params"; "data_module"; "trainer"]
                        /\ e = KeyError key)
        \/ e = TypeError "argument after ** must be a mapping")
  /\ (r = Ok tt ->
        exists trainer model dm,
          fit trainer model dm ∈ evs /\ run_ok w (fit trainer model dm)).

End pl_train_module.

(** ** Concrete inputs

    The batch of the spec's scenario A (and of the class docstring), once with
    the features keyed by name and once as a bare tensor; the lengths live on
    an accelerator while the payload is still on the host. *)

Module examples.
Import torch PaddedBatch.

Definition amount : Tensor :=
  mkTensor cpu Int64 [3; 4] [1; 2; 0; 0; 3; 4; 5; 6; 7; 8; 9; 0]%Z.

Definition lengths : Tensor := mkTensor (cuda 0) Int64 [3] [2; 4; 3]%Z.

Definition heap : Heap :=
  [VTensor amount; VDict [("amount", 0)]; VTensor lengths].

Definition keyed : PaddedBatch := __init__ 1 2.

Definition dense : PaddedBatch := __init__ 0 2.


(** The same batch with everything on the host; a dictionary whose second
    feature has another shape; an empty dictionary; and lengths for two
    sequences only. *)
Definition host_lengths : Tensor := mkTensor cpu Int64 [3] [2; 4; 3]%Z.

Definition host_heap : Heap :=
  [VTensor amount; VDict [("amount", 0)]; VTensor host_lengths].

Definition odd : Tensor := mkTensor cpu Float32 [2; 2] [0; 0; 0; 0]%Z.

Definition ragged_heap : Heap :=
  [VTensor amount; VTensor odd; VDict [("amount", 0); ("odd", 1)];
   VTensor lengths].

Definition ragged : PaddedBatch := __init__ 2 3.

Definition empty_heap : Heap := [VDict []; VTensor lengths].

Definition empty : PaddedBatch := __init__ 0 1.

Definition short_lengths : Tensor := mkTensor cpu Int64 [2] [2; 4]%Z.

Definition short_heap : Heap := [VTensor amount; VTensor short_lengths].

Definition short : PaddedBatch := __init__ 0 1.

Import pl_train_module.

(** A world in which every call goes through. *)
Definition world : World :=
  {| respond := fun c =>
       match c with
       | new_pl_module _ _ => Ok 1
       | new_data_module _ _ _ => Ok 2
       | Trainer _ => Ok 3
       | _ => Ok 0
       end;
     str_block := fun _ => "ConfigTree" |}.

Definition block (data_module_name : string) : list (string * ConfValue) :=
  [("params", CTree [("data_module_name", CStr data_module_name);
                     ("pl_module_name", CStr "CoLESModule")]);
   ("data_module", CTree [("train_batch_size", CInt 64)]);
   ("trainer", CTree [("max_epochs", CInt 10)])].

(** Scenario B, scenario C and a configuration with an output path. *)
Definition conf_unknown : ConfValue :=
  CTree (("seed_everything", CInt 42) :: block "UnknownThing").

Definition conf_no_path : ConfValue := CTree (block "CpcDataModuleTrain").

Definition conf_path : ConfValue :=
  CTree (block "CpcDataModuleTrain" ++ [("model_path", CStr "model.p")]).

(** A hierarchy for the two imported classes, in which each has [Dataset]
    for its only base.  [MlmDataset] defines indexing, a length and an
    iteration of its own; [Dataset] and [IterableDataset] each define
    [__add__]. *)
Definition imported_mro (name : string) : list string :=
  if String.eqb name "MlmDataset"
  then ["MlmDataset"; "Dataset"; "Generic"; "object"]
  else if String.eqb name "IterableDataset"
  then ["IterableDataset"; "Dataset"; "Generic"; "object"]
  else [name; "object"].

Definition imported_dict (name : string) : gmap string string :=
  if String.eqb name "MlmDataset"
  then {[ "__getitem__" := "MlmDataset.__getitem__";
          "__len__" := "MlmDataset.__len__";
          "__iter__" := "MlmDataset.__iter__" ]}
  else if String.eqb name "IterableDataset"
  then {[ "__iter__" := "IterableDataset.__iter__";
          "__add__" := "IterableDataset.__add__" ]}
  else if String.eqb name "Dataset"
  then {[ "__getitem__" := "Dataset.__getitem__";
          "__add__" := "Dataset.__add__" ]}
  else ∅.

(** A world in which the data component cannot be built, and a configuration
    whose [trainer] entry is a string. *)
Definition broken_world : World :=
  {| respond := fun c =>
       match c with
       | new_pl_module _ _ => Ok 1
       | new_data_module _ _ _ => Raise (RuntimeError "no data")
       | _ => Ok 0
       end;
     str_block := fun _ => "ConfigTree" |}.

Definition conf_bad_trainer : ConfValue :=
  CTree [("params", CTree [("data_module_name", CStr "ColesDataModuleTrain");
                           ("pl_module_name", CStr "CpcModule")]);
         ("data_module", CTree []);
         ("trainer", CStr "default")].

End examples.

(** * Properties *)

(** ** Tensors *)

Section tensor_facts.
Import torch.

Lemma ravel_lt s idx : in_bounds s idx -> ravel s idx < numel s.
Proof.
  unfold in_bounds. induction 1 as [|i d is' ds Hi _ IH]; simpl; [lia|].
  fold (numel ds). nia.
Qed.

Lemma unravel_ravel s idx : in_bounds s idx -> unravel s (ravel s idx) = idx.
Proof.
  unfold in_bounds. induction 1 as [|i d is' ds Hi Hrest IH]; simpl; [done|].
  pose proof (ravel_lt ds is' Hrest) as Hr.
  assert (Hn : numel ds <> 0) by lia.
  f_equal.
  - symmetry. apply (Nat.div_unique _ _ _ (ravel ds is')); lia.
  - rewrite <- IH at 2. f_equal.
    symmetry. apply (Nat.mod_unique _ _ i); lia.
Qed.

Lemma lookup_tabulate s f k :
  k < numel s -> tabulate s f !! k = Some (f (unravel s k)).
Proof.
  intros Hk. unfold tabulate.
  rewrite list_lookup_fmap, lookup_seq_lt by done. done.
Qed.

Lemma read_tabulate dev dt s f idx :
  in_bounds s idx -> read (mkTensor dev dt s (tabulate s f)) idx = f idx.
Proof.
  intros Hb. unfold read. simpl.
  rewrite lookup_tabulate by by apply ravel_lt.
  simpl. by rewrite unravel_ravel.
Qed.

Lemma item_tabulate dev dt s f idx :
  in_bounds s idx -> item (mkTensor dev dt s (tabulate s f)) idx = Some (f idx).
Proof.
  intros Hb. unfold item. simpl.
  rewrite decide_True by done.
  rewrite lookup_tabulate by by apply ravel_lt.
  by rewrite unravel_ravel.
Qed.

Lemma in_bounds_2 B T i t : i < B -> t < T -> in_bounds [B; T] [i; t].
Proof. intros. unfold in_bounds. by repeat constructor. Qed.

(** The grid [arange(T).unsqueeze(0).expand(B, T)] holds [t] at [(i, t)]. *)
Lemma expand_arange dev B T :
  exists row grid,
    unsqueeze 0 (arange T dev) = Ok row /\ expand row [B; T] = Ok grid
    /\ t_device grid = dev /\ t_dtype grid = Int64 /\ t_shape grid = [B; T]
    /\ forall i t, i < B -> t < T -> read grid [i; t] = Z.of_nat t.
Proof.
  unfold unsqueeze, arange. simpl.
  eexists _, _. split; [done|].
  unfold expand. simpl.
  rewrite (bool_decide_eq_true_2 (T = T)) by done.
  rewrite orb_true_r. simpl.
  split; [done|]. simpl. repeat split.
  intros i t Hi Ht.
  rewrite read_tabulate by by apply in_bounds_2.
  unfold read, bcast_index. simpl.
  destruct (decide (T = 1)) as [->|_].
  - assert (t = 0) as -> by lia. done.
  - replace (t * 1 + 0) with t by lia.
    rewrite list_lookup_fmap, lookup_seq_lt by done. done.
Qed.

Lemma broadcast_column B T : broadcast_shapes [B; T] [B; 1] = Some [B; T].
Proof.
  unfold broadcast_shapes.
  change (reverse [B; T]) with [T; B]. change (reverse [B; 1]) with [1; B].
  simpl. destruct (decide (T = 1)) as [->|HT].
  - by rewrite decide_True.
  - destruct (decide (T = 1)); [done|].
    by rewrite decide_True.
Qed.

End tensor_facts.

(** ** The padded batch *)

Section padded_batch_facts.
Import torch PaddedBatch.

(** Running a computation of the heap monad step by step. *)
Lemma run_bind {S A B} (m : M S A) (f : A -> M S B) s s' a :
  m s = (s', Ok a) -> (m ≫= f) s = f a s'.
Proof. intros Hm. unfold mbind, M_bind. by rewrite Hm. Qed.

Lemma run_bind_raise {S A B} (m : M S A) (f : A -> M S B) s s' e :
  m s = (s', Raise e) -> (m ≫= f) s = (s', Raise e).
Proof. intros Hm. unfold mbind, M_bind. by rewrite Hm. Qed.

Lemma run_deref h l v : h !! l = Some v -> deref l h = (h, Ok v).
Proof. intros Hl. unfold deref. by rewrite Hl. Qed.

Lemma run_tensor_of h l attr t :
  h !! l = Some (VTensor t) -> tensor_of l attr h = (h, Ok t).
Proof.
  intros Hl. unfold tensor_of.
  by rewrite (run_bind _ _ _ _ _ (run_deref _ _ _ Hl)).
Qed.

Lemma run_lift {S A} (r : result A) (s : S) : lift r s = (s, r).
Proof. done. Qed.

Lemma run_mask_steps h B T length :
  t_shape length = [B] -> t_dtype length = Int64 ->
  exists mask,
    mask_steps B T length h = (h, Ok mask)
    /\ t_device mask = t_device length
    /\ t_dtype mask = Int64
    /\ t_shape mask = [B; T]
    /\ forall i t, i < B -> t < T ->
         item mask [i; t]
         = Some (if (Z.of_nat t <? read length [i])%Z then 1 else 0)%Z.
Proof.
  intros Hshape Hdtype.
  destruct (expand_arange (t_device length) B T)
    as (row & grid & Hrow & Hgrid & Hgdev & Hgty & Hgshape & Hgread).
  unfold mask_steps.
  rewrite (run_bind _ _ _ h row) by by rewrite run_lift, Hrow.
  rewrite (run_bind _ _ _ h grid) by by rewrite run_lift, Hgrid.
  unfold unsqueeze at 1. rewrite Hshape. simpl.
  erewrite run_bind by by rewrite run_lift.
  unfold lt. simpl. rewrite Hgdev, decide_True by done.
  rewrite Hgty, Hdtype, Hgshape. simpl. rewrite broadcast_column.
  erewrite run_bind by by rewrite run_lift.
  rewrite run_lift. unfold long. simpl. eexists. split; [done|]. simpl.
  repeat split. intros i t Hi Ht.
  rewrite item_tabulate by by apply in_bounds_2.
  f_equal.
  assert (Hidx : bcast_index [B; T] [i; t] = [i; t]).
  { unfold bcast_index. simpl. repeat case_decide; repeat f_equal; lia. }
  assert (Hcol : bcast_index [B; 1] [i; t] = [i; 0]).
  { unfold bcast_index. simpl. repeat case_decide; repeat f_equal; lia. }
  rewrite Hidx, Hcol, Hgread by done.
  unfold read at 1. simpl. unfold read. rewrite Hshape. simpl.
  by replace (i * 1 + 0) with i by lia.
Qed.

Lemma run_seq_len_mask h self B T :
  valid h self B T ->
  exists length mask,
    h !! _length self = Some (VTensor length)
    /\ t_shape length = [B]
    /\ seq_len_mask self h = (h, Ok mask)
    /\ t_device mask = t_device length
    /\ t_dtype mask = Int64
    /\ t_shape mask = [B; T]
    /\ forall i t, i < B -> t < T ->
         item mask [i; t]
         = Some (if (Z.of_nat t <? read length [i])%Z then 1 else 0)%Z.
Proof.
  intros [Hpayload (length & Hlength & Hshape & Hdtype & _)].
  destruct (run_mask_steps h B T length Hshape Hdtype)
    as (mask & Hrun & Hmask).
  exists length, mask. do 2 (split; [done|]). split; [|done].
  unfold seq_len_mask.
  destruct Hpayload as [items Hp Hne Hall | t Hp Ht _ | t H Hp Ht _];
    rewrite (run_bind _ _ _ _ _ (run_deref _ _ _ Hp)).
  - destruct items as [|[k v] rest]; [done|].
    apply Forall_cons_1 in Hall as [(t & Hv & Ht & _) _]. simpl in Hv.
    erewrite run_bind; cycle 1.
    { rewrite (run_bind _ _ _ _ _ (run_tensor_of _ _ _ _ Hv)).
      unfold size. by rewrite Ht. }
    cbv beta iota.
    by rewrite (run_bind _ _ _ _ _ (run_tensor_of _ _ _ _ Hlength)).
  - erewrite run_bind; cycle 1.
    { unfold size. by rewrite Ht. }
    cbv beta iota.
    by rewrite (run_bind _ _ _ _ _ (run_tensor_of _ _ _ _ Hlength)).
  - erewrite run_bind; cycle 1.
    { unfold size. by rewrite Ht. }
    cbv beta iota.
    by rewrite (run_bind _ _ _ _ _ (run_tensor_of _ _ _ _ Hlength)).
Qed.

Lemma valid_length_at h self B T i :
  valid h self B T -> i < B ->
  exists length,
    h !! _length self = Some (VTensor length)
    /\ length_at h self i = Some (read length [i]).
Proof.
  intros [_ (length & Hlength & Hshape & _ & Hok)] Hi.
  exists length. split; [done|].
  unfold length_at, item, read. rewrite Hlength, Hshape.
  rewrite decide_True by (unfold in_bounds; by repeat constructor).
  unfold tensor_ok in Hok. rewrite Hshape in Hok. simpl in *.
  destruct (lookup_lt_is_Some_2 (t_data length) (i * 1 + 0)) as [x Hx];
    [lia|]. by rewrite Hx.
Qed.

(** C1. For a batch as the data model describes it (features keyed by name,
    or one [(B, T)] or [(B, T, H)] tensor), [seq_len_mask] returns a
    [(B, T)] tensor which holds 1 at [(i, t)] exactly when [t < length[i]],
    and 0 elsewhere. *)
Theorem seq_len_mask_marks_valid_positions h self B T :
  valid h self B T ->
  exists mask,
    seq_len_mask self h = (h, Ok mask)
    /\ t_shape mask = [B; T]
    /\ forall i t, i < B -> t < T ->
         exists li,
           length_at h self i = Some li
           /\ (item mask [i; t] = Some 1%Z <-> (Z.of_nat t < li)%Z)
           /\ (item mask [i; t] = Some 0%Z <-> (li <= Z.of_nat t)%Z).
Proof.
  intros Hvalid.
  destruct (run_seq_len_mask h self B T Hvalid)
    as (length & mask & Hlength & _ & Hrun & _ & _ & Hshape & Hitem).
  exists mask. do 2 (split; [done|]). intros i t Hi Ht.
  destruct (valid_length_at h self B T i Hvalid Hi) as (length' & Hl' & Hat).
  assert (length' = length) as -> by congruence.
  exists (read length [i]). split; [done|].
  rewrite (Hitem i t Hi Ht).
  destruct (Z.ltb_spec (Z.of_nat t) (read length [i])); split; split;
    intros; try done; try lia; congruence.
Qed.

Lemma examples_keyed_valid : valid examples.heap examples.keyed 3 4.
Proof.
  split.
  - eapply payload_dict; [reflexivity|done|].
    repeat constructor. by exists examples.amount.
  - by exists examples.lengths.
Qed.

Lemma examples_dense_valid : valid examples.heap examples.dense 3 4.
Proof.
  split.
  - by eapply payload_features.
  - by exists examples.lengths.
Qed.

Lemma seq_len_mask_marks_valid_positions_witness :
  valid examples.heap examples.keyed 3 4
  /\ exists mask,
       seq_len_mask examples.keyed examples.heap = (examples.heap, Ok mask)
       /\ t_shape mask = [3; 4]
       /\ forall i t, i < 3 -> t < 4 ->
            exists li,
              length_at examples.heap examples.keyed i = Some li
              /\ (item mask [i; t] = Some 1%Z <-> (Z.of_nat t < li)%Z)
              /\ (item mask [i; t] = Some 0%Z <-> (li <= Z.of_nat t)%Z).
Proof.
  split; [exact examples_keyed_valid|].
  apply (seq_len_mask_marks_valid_positions examples.heap examples.keyed 3 4).
  exact examples_keyed_valid.
Defined.

(** Scenario A of the spec, evaluated. *)
Example scenario_A :
  seq_len_mask examples.keyed examples.heap
  = (examples.heap,
     Ok (mkTensor (cuda 0) Int64 [3; 4] [1; 1; 0; 0; 1; 1; 1; 1; 1; 1; 1; 0]%Z))
  /\ __len__ examples.keyed examples.heap = (examples.heap, Ok 3).
Proof. split; reflexivity. Qed.

(** C8. [len(batch)] is the extent of the [length] tensor, the number of
    sequences of the batch. *)
Theorem len_is_length_extent h self B T :
  valid h self B T ->
  exists length,
    h !! seq_lens self = Some (VTensor length)
    /\ t_shape length !! 0 = Some B
    /\ __len__ self h = (h, Ok B).
Proof.
  intros [_ (length & Hlength & Hshape & _)].
  exists length. split; [done|]. rewrite Hshape. split; [done|].
  unfold __len__.
  rewrite (run_bind _ _ _ _ _ (run_deref _ _ _ Hlength)).
  unfold len. by rewrite Hshape.
Qed.

Lemma len_is_length_extent_witness :
  valid examples.heap examples.dense 3 4
  /\ exists length,
       examples.heap !! seq_lens examples.dense = Some (VTensor length)
       /\ t_shape length !! 0 = Some 3
       /\ __len__ examples.dense examples.heap = (examples.heap, Ok 3).
Proof.
  split; [exact examples_dense_valid|].
  apply (len_is_length_extent examples.heap examples.dense 3 4).
  exact examples_dense_valid.
Defined.

(** C10. [device] is the device of the [length] tensor, wherever the payload
    is, and the mask of [seq_len_mask] is on that device. *)
Theorem device_and_mask_follow_length h self B T :
  valid h self B T ->
  exists length mask,
    h !! seq_lens self = Some (VTensor length)
    /\ device self h = (h, Ok (t_device length))
    /\ seq_len_mask self h = (h, Ok mask)
    /\ t_device mask = t_device length.
Proof.
  intros Hvalid.
  destruct (run_seq_len_mask h self B T Hvalid)
    as (length & mask & Hlength & _ & Hrun & Hdev & _).
  exists length, mask. split; [done|]. split; [|done].
  unfold device.
  by rewrite (run_bind _ _ _ _ _ (run_tensor_of _ _ _ _ Hlength)).
Qed.

Lemma device_and_mask_follow_length_witness :
  valid examples.heap examples.keyed 3 4
  /\ exists length mask,
       examples.heap !! seq_lens examples.keyed = Some (VTensor length)
       /\ device examples.keyed examples.heap
          = (examples.heap, Ok (t_device length))
       /\ seq_len_mask examples.keyed examples.heap = (examples.heap, Ok mask)
       /\ t_device mask = t_device length.
Proof.
  split; [exact examples_keyed_valid|].
  apply (device_and_mask_follow_length examples.heap examples.keyed 3 4).
  exact examples_keyed_valid.
Defined.

(** *** Device transfer *)

Lemma moved_same t : moved (t_device t) t = t.
Proof. by destruct t. Qed.

Lemma run_alloc h v : alloc v h = (h ++ [v], Ok (length h)).
Proof. done. Qed.

Lemma lookup_alloc (h : Heap) v : (h ++ [v]) !! length h = Some v.
Proof. by rewrite lookup_app_r, Nat.sub_diag by lia. Qed.

(** A transferred tensor is the same array on the target device; the heap
    only grows. *)
Lemma run_tensor_to h l t dev nb :
  h !! l = Some (VTensor t) ->
  exists h' l',
    tensor_to l dev nb h = (h', Ok l')
    /\ h `prefix_of` h'
    /\ h' !! l' = Some (VTensor (moved dev t))
    /\ (t_device t = dev -> h' = h /\ l' = l).
Proof.
  intros Hl. unfold tensor_to.
  rewrite (run_bind _ _ _ _ _ (run_tensor_of _ _ _ _ Hl)).
  destruct (decide (t_device t = dev)) as [<-|Hne].
  - exists h, l. rewrite moved_same. by repeat split.
  - exists (h ++ [VTensor (moved dev t)]), (length h).
    rewrite run_alloc. repeat split; [by apply prefix_app_r|..|done|done].
    apply lookup_alloc.
Qed.

Lemma same_feature_mono h0 h' h'' dev kv kv' :
  h' `prefix_of` h'' ->
  same_feature h0 h' dev kv kv' -> same_feature h0 h'' dev kv kv'.
Proof.
  intros Hpre (Hk & t & Ht & Ht'). split; [done|]. exists t. split; [done|].
  by eapply prefix_lookup_Some.
Qed.

Lemma run_dict_comprehension h0 items dev nb : forall h,
  h0 `prefix_of` h ->
  Forall (fun kv => exists t, h0 !! kv.2 = Some (VTensor t)) items ->
  exists h' items',
    dict_comprehension items dev nb h = (h', Ok items')
    /\ h `prefix_of` h'
    /\ Forall2 (same_feature h0 h' dev) items items'.
Proof.
  induction items as [|[k v] rest IH]; intros h Hpre Hall.
  - exists h, []. by repeat split.
  - apply Forall_cons_1 in Hall as [(t & Ht) Hrest]. simpl in Ht.
    assert (Hv : h !! v = Some (VTensor t)) by by eapply prefix_lookup_Some.
    destruct (run_tensor_to h v t dev nb Hv) as (h1 & v' & Hrun & Hpre1 & Hv' & _).
    destruct (IH h1 (transitivity Hpre Hpre1) Hrest)
      as (h2 & rest' & Hrun' & Hpre2 & Hall').
    exists h2, ((k, v') :: rest'). simpl.
    rewrite (run_bind _ _ _ _ _ Hrun), (run_bind _ _ _ _ _ Hrun').
    split; [done|]. split; [by etransitivity|].
    constructor; [|done].
    split; [done|]. exists t. split; [done|]. by eapply prefix_lookup_Some.
Qed.

(** For a batch whose features are keyed by name, [to] returns a new batch
    with the same keys and the same arrays on the target device, and every
    cell the heap had keeps its content. *)
Lemma to_relocates_keyed_batch h self B T items dev nb :
  valid h self B T ->
  h !! payload self = Some (VDict items) ->
  exists h' new items' lens,
    to self dev nb h = (h', Ok new)
    /\ h `prefix_of` h'
    /\ h !! seq_lens self = Some (VTensor lens)
    /\ h' !! seq_lens new = Some (VTensor (moved dev lens))
    /\ h' !! payload new = Some (VDict items')
    /\ Forall2 (same_feature h h' dev) items items'.
Proof.
  intros [Hpayload (lens & Hlength & _)] Hitems.
  destruct (run_tensor_to h _ lens dev nb Hlength)
    as (h1 & l' & Hrun1 & Hpre1 & Hl' & _).
  assert (Hall : Forall (fun kv => exists t, h !! kv.2 = Some (VTensor t)) items).
  { destruct Hpayload as [items0 Hp _ Hall | t Hp _ _ | t H Hp _ _];
      unfold payload in Hitems; rewrite Hitems in Hp; [|done..].
    injection Hp as <-. eapply Forall_impl; [exact Hall|].
    intros kv (t & Ht & _). by exists t. }
  destruct (run_dict_comprehension h items dev nb h1 Hpre1 Hall)
    as (h2 & items' & Hrun2 & Hpre2 & Hsame).
  exists (h2 ++ [VDict items']), (__init__ (length h2) l'), items', lens.
  assert (Hpre : h `prefix_of` h2 ++ [VDict items']).
  { etransitivity; [exact Hpre1|]. etransitivity; [exact Hpre2|].
    by apply prefix_app_r. }
  split.
  { unfold to. rewrite (run_bind _ _ _ _ _ Hrun1).
    assert (Hp1 : h1 !! _payload self = Some (VDict items))
      by by eapply prefix_lookup_Some.
    rewrite (run_bind _ _ _ _ _ (run_deref _ _ _ Hp1)).
    erewrite run_bind by reflexivity.
    rewrite (run_bind _ _ _ _ _ Hrun2).
    by rewrite (run_bind _ _ _ _ _ (run_alloc _ _)). }
  split; [done|]. split; [done|]. simpl. split.
  { eapply prefix_lookup_Some; [exact Hl'|].
    etransitivity; [exact Hpre2|]. by apply prefix_app_r. }
  split; [apply lookup_alloc|].
  eapply Forall2_impl; [exact Hsame|].
  intros kv kv'. apply same_feature_mono. by apply prefix_app_r.
Qed.

(** X12. Whatever the device, [to] raises [AttributeError] on a batch
    whose payload is one tensor, and does so after the transfer of the
    lengths: the heap it leaves is the heap that transfer leaves, which is
    the heap before when the lengths are on the device already and has one
    more cell, the lengths on the device, when they are not. *)
Lemma to_tensor_payload_raises h self t lens dev nb :
  h !! payload self = Some (VTensor t) ->
  h !! seq_lens self = Some (VTensor lens) ->
  exists h' l',
    tensor_to (seq_lens self) dev nb h = (h', Ok l')
    /\ h' !! l' = Some (VTensor (moved dev lens))
    /\ h' = (if decide (t_device lens = dev) then h
             else h ++ [VTensor (moved dev lens)])
    /\ to self dev nb h
       = (h', Raise (AttributeError "'Tensor' object has no attribute 'items'"))
    /\ h `prefix_of` h'.
Proof.
  intros Hp Hl.
  destruct (run_tensor_to h _ lens dev nb Hl) as (h1 & l' & Hrun & Hpre & Hl' & _).
  exists h1, l'. split; [exact Hrun|]. split; [exact Hl'|].
  split.
  { revert Hrun. unfold tensor_to.
    rewrite (run_bind _ _ _ _ _ (run_tensor_of _ _ _ _ Hl)).
    case_decide; [by intros [= <- _]|].
    rewrite run_alloc. by intros [= <- _]. }
  split; [|done].
  unfold to. rewrite (run_bind _ _ _ _ _ Hrun).
  assert (Hp1 : h1 !! _payload self = Some (VTensor t))
    by by eapply prefix_lookup_Some.
  rewrite (run_bind _ _ _ _ _ (run_deref _ _ _ Hp1)).
  by apply run_bind_raise.
Qed.

(** C2. Code defect: on a batch whose payload is one tensor, [to] raises
    instead of returning a relocated batch (it asks the payload for its
    [items]).  Evaluated at the batch of the class docstring. *)
Theorem to_raises_on_tensor_payload :
  to examples.dense (cuda 0) false examples.heap
  = (examples.heap,
     Raise (AttributeError "'Tensor' object has no attribute 'items'")).
Proof. reflexivity. Qed.

(** C3. Code defect, the same one: a transfer of a tensor-payload batch to
    another device (to come back afterwards) copies the lengths and then
    raises, so there is no batch to compare with the original. *)
Theorem to_round_trip_raises_on_tensor_payload :
  to examples.dense cpu false examples.heap
  = (examples.heap ++ [VTensor (moved cpu examples.lengths)],
     Raise (AttributeError "'Tensor' object has no attribute 'items'")).
Proof. reflexivity. Qed.

(** *** What the methods do to the heap *)

Lemma reads_ret {A} (a : A) : reads (mret a).
Proof. by intros h. Qed.

Lemma reads_lift {A} (r : result A) : reads (lift r).
Proof. by intros h. Qed.

Lemma reads_throw {A} e : reads (throw (A := A) e).
Proof. by intros h. Qed.

Lemma reads_deref l : reads (deref l).
Proof. intros h. unfold deref. by destruct (h !! l). Qed.

Lemma reads_bind {A B} (m : M Heap A) (f : A -> M Heap B) :
  reads m -> (forall a, reads (f a)) -> reads (m ≫= f).
Proof.
  intros Hm Hf h. unfold mbind, M_bind. specialize (Hm h).
  destruct (m h) as [h' [a|e]]; simpl in *; subst h'; [apply Hf|done].
Qed.

Lemma reads_tensor_of l attr : reads (tensor_of l attr).
Proof.
  apply reads_bind; [apply reads_deref|].
  intros [t|items]; [apply reads_ret|apply reads_throw].
Qed.

Lemma reads_grows {A} (m : M Heap A) : reads m -> grows m.
Proof. intros Hm h. by rewrite Hm. Qed.

Lemma grows_bind {A B} (m : M Heap A) (f : A -> M Heap B) :
  grows m -> (forall a, grows (f a)) -> grows (m ≫= f).
Proof.
  intros Hm Hf h. unfold mbind, M_bind. specialize (Hm h).
  destruct (m h) as [h' [a|e]]; simpl in *; [|done].
  etransitivity; [exact Hm|apply Hf].
Qed.

Lemma grows_alloc v : grows (alloc v).
Proof. intros h. by apply prefix_app_r. Qed.

Lemma grows_tensor_to l dev nb : grows (tensor_to l dev nb).
Proof.
  apply grows_bind; [apply reads_grows, reads_tensor_of|].
  intros t. case_decide; [apply reads_grows, reads_ret|apply grows_alloc].
Qed.

Lemma grows_dict_comprehension items dev nb :
  grows (dict_comprehension items dev nb).
Proof.
  induction items as [|[k v] rest IH]; [apply reads_grows, reads_ret|].
  simpl. apply grows_bind; [apply grows_tensor_to|]. intros v'.
  apply grows_bind; [exact IH|]. intros rest'. apply reads_grows, reads_ret.
Qed.

(** X2. [to] never writes into a cell: whatever the batch and the device, and
    whether it returns or raises, every cell of the heap before is found
    with the same content afterwards. *)
Theorem to_never_overwrites self dev nb h :
  h `prefix_of` (to self dev nb h).1
  /\ forall l v, h !! l = Some v -> (to self dev nb h).1 !! l = Some v.
Proof.
  assert (Hgrows : grows (to self dev nb)).
  { apply grows_bind; [apply grows_tensor_to|]. intros length.
    apply grows_bind; [apply reads_grows, reads_deref|]. intros p.
    apply grows_bind.
    { destruct p; apply reads_grows; [apply reads_throw|apply reads_ret]. }
    intros items.
    apply grows_bind; [apply grows_dict_comprehension|]. intros items'.
    apply grows_bind; [apply grows_alloc|]. intros payload.
    apply reads_grows, reads_ret. }
  split; [apply Hgrows|].
  intros l v Hl. eapply prefix_lookup_Some; [exact Hl|apply Hgrows].
Qed.

(** *** [seq_len_mask] beyond well-formed batches *)

Lemma seq_len_mask_sized h self B T length :
  sized h (_payload self) B T ->
  h !! _length self = Some (VTensor length) ->
  seq_len_mask self h = mask_steps B T length h.
Proof.
  intros Hsized Hlength. unfold seq_len_mask.
  destruct Hsized as [k v rest t Hp Hv Ht|t Hp Ht];
    rewrite (run_bind _ _ _ _ _ (run_deref _ _ _ Hp)).
  - erewrite run_bind; cycle 1.
    { rewrite (run_bind _ _ _ _ _ (run_tensor_of _ _ _ _ Hv)).
      unfold size. by rewrite Ht. }
    cbv beta iota.
    by rewrite (run_bind _ _ _ _ _ (run_tensor_of _ _ _ _ Hlength)).
  - erewrite run_bind; cycle 1.
    { unfold size. by rewrite Ht. }
    cbv beta iota.
    by rewrite (run_bind _ _ _ _ _ (run_tensor_of _ _ _ _ Hlength)).
Qed.

Lemma valid_sized h self B T : valid h self B T -> sized h (_payload self) B T.
Proof.
  intros [[items Hp Hne Hall|t Hp Ht _|t H Hp Ht _] _].
  - destruct items as [|[k v] rest]; [done|].
    apply Forall_cons_1 in Hall as [(t & Hv & Ht & _) _].
    by eapply sized_dict.
  - eapply sized_tensor; [done|]. by rewrite Ht.
  - eapply sized_tensor; [done|]. by rewrite Ht.
Qed.

(** X3. The mask needs less than a well-formed batch: it is right as soon as
    the first feature of the dictionary (or the tensor, of any rank from 2)
    starts with the extents [(B, T)] and the lengths are [B] integers.  The
    other features are not looked at, whatever their shape. *)
Theorem seq_len_mask_looks_at_first_feature h self B T :
  sized h (_payload self) B T ->
  is_length h (_length self) B ->
  exists mask,
    seq_len_mask self h = (h, Ok mask)
    /\ t_shape mask = [B; T]
    /\ forall i t, i < B -> t < T ->
         exists li,
           length_at h self i = Some li
           /\ (item mask [i; t] = Some 1%Z <-> (Z.of_nat t < li)%Z)
           /\ (item mask [i; t] = Some 0%Z <-> (li <= Z.of_nat t)%Z).
Proof.
  intros Hsized (length & Hlength & Hshape & Hdtype & Hok).
  rewrite (seq_len_mask_sized h self B T length Hsized Hlength).
  destruct (run_mask_steps h B T length Hshape Hdtype)
    as (mask & Hrun & _ & _ & Hmshape & Hitem).
  exists mask. do 2 (split; [done|]). intros i t Hi Ht.
  exists (read length [i]). split.
  { unfold length_at, item, read. rewrite Hlength, Hshape.
    rewrite decide_True by (unfold in_bounds; by repeat constructor).
    unfold tensor_ok in Hok. rewrite Hshape in Hok. simpl in *.
    destruct (lookup_lt_is_Some_2 (t_data length) (i * 1 + 0)) as [x Hx];
      [lia|]. by rewrite Hx. }
  rewrite (Hitem i t Hi Ht).
  destruct (Z.ltb_spec (Z.of_nat t) (read length [i])); split; split;
    intros; try done; try lia; congruence.
Qed.

(** X4. On an empty dictionary [seq_len_mask] raises [StopIteration]: there
    is no first feature to take the extents from. *)
Theorem seq_len_mask_empty_mapping h self :
  h !! payload self = Some (VDict []) ->
  seq_len_mask self h = (h, Raise StopIteration).
Proof.
  intros Hp. unfold seq_len_mask.
  rewrite (run_bind _ _ _ _ _ (run_deref _ _ _ Hp)).
  by apply run_bind_raise.
Qed.

(** X5. The extents are unpacked into exactly two names: a first feature
    that is not two-dimensional, or a tensor payload of fewer than two
    dimensions, makes [seq_len_mask] raise [ValueError]. *)
Theorem seq_len_mask_wrong_rank h self :
  (exists k v rest t,
     h !! payload self = Some (VDict ((k, v) :: rest))
     /\ h !! v = Some (VTensor t) /\ length (t_shape t) <> 2)
  \/ (exists t,
       h !! payload self = Some (VTensor t) /\ length (t_shape t) < 2) ->
  seq_len_mask self h = (h, Raise (ValueError "unpack: expected 2 values")).
Proof.
  intros [(k & v & rest & t & Hp & Hv & Hrank)|(t & Hp & Hrank)];
    unfold seq_len_mask;
    rewrite (run_bind _ _ _ _ _ (run_deref _ _ _ Hp)); apply run_bind_raise.
  - rewrite (run_bind _ _ _ _ _ (run_tensor_of _ _ _ _ Hv)).
    unfold size. by destruct (t_shape t) as [|?[|?[|??]]].
  - unfold size. destruct (t_shape t) as [|?[|??]]; simpl in *; [done..|lia].
Qed.

Lemma broadcast_mismatch B T L :
  L <> B -> L <> 1 -> B <> 1 -> broadcast_shapes [B; T] [L; 1] = None.
Proof.
  intros HLB HL HB. unfold broadcast_shapes.
  change (reverse [B; T]) with [T; B]. change (reverse [L; 1]) with [1; L].
  simpl. destruct (decide (T = 1)) as [->|HT].
  - rewrite (decide_False (P := B = L)) by done.
    by rewrite !(decide_False (P := B = 1)), (decide_False (P := L = 1)).
  - destruct (decide (T = 1)); [done|].
    rewrite (decide_False (P := B = L)) by done.
    by rewrite !(decide_False (P := B = 1)), (decide_False (P := L = 1)).
Qed.

(** X6. No check is made when a batch is built; a [length] whose extent is
    neither that of the payload nor 1 (the payload having more than one
    sequence) is found out by [seq_len_mask], which raises. *)
Theorem seq_len_mask_length_mismatch h self B T L lens :
  sized h (payload self) B T ->
  h !! seq_lens self = Some (VTensor lens) ->
  t_shape lens = [L] -> t_dtype lens = Int64 ->
  L <> B -> L <> 1 -> B <> 1 ->
  seq_len_mask self h = (h, Raise (RuntimeError "shapes cannot be broadcast")).
Proof.
  intros Hsized Hlens Hshape Hdtype HLB HL HB.
  rewrite (seq_len_mask_sized h self B T lens Hsized Hlens).
  destruct (expand_arange (t_device lens) B T)
    as (row & grid & Hrow & Hgrid & Hgdev & Hgty & Hgshape & _).
  unfold mask_steps.
  rewrite (run_bind _ _ _ h row) by by rewrite run_lift, Hrow.
  rewrite (run_bind _ _ _ h grid) by by rewrite run_lift, Hgrid.
  unfold unsqueeze at 1. rewrite Hshape. simpl.
  erewrite run_bind by by rewrite run_lift.
  apply run_bind_raise. rewrite run_lift.
  unfold lt. simpl. rewrite Hgdev, decide_True by done.
  rewrite Hgty, Hdtype, Hgshape. simpl.
  by rewrite broadcast_mismatch.
Qed.

Lemma sum_app l k : sum (l ++ k) = (sum l + sum k)%Z.
Proof. unfold sum. induction l as [|x l IH]; simpl; [done|]. rewrite IH. lia. Qed.

Lemma sum_prefix_indicator T li :
  sum ((fun t => if (Z.of_nat t <? li)%Z then 1 else 0)%Z <$> seq 0 T)
  = Z.max 0 (Z.min li (Z.of_nat T)).
Proof.
  induction T as [|T IH]; [simpl; lia|].
  rewrite seq_S, fmap_app, sum_app, IH. simpl.
  destruct (Z.ltb_spec (Z.of_nat T) li); lia.
Qed.

Lemma row_tabulated mask B T i (f : nat -> Z) :
  t_shape mask = [B; T] -> i < B ->
  (forall t, t < T -> item mask [i; t] = Some (f t)) ->
  row mask i = f <$> seq 0 T.
Proof.
  intros Hshape Hi Hitem. unfold row. rewrite Hshape.
  apply list_eq. intros t. rewrite list_lookup_fmap.
  destruct (decide (t < T)) as [Ht|Ht].
  - rewrite lookup_take_lt, lookup_drop, lookup_seq_lt by done. simpl.
    rewrite <- (Hitem t Ht). unfold item. rewrite Hshape.
    rewrite decide_True by by apply in_bounds_2.
    simpl. f_equal. lia.
  - rewrite lookup_take_ge, lookup_seq_ge by lia. done.
Qed.

(** X7. Row [i] of the mask of a well-formed batch holds as many ones as
    [length[i]] says, cut to the range from 0 to [T]: lengths beyond the
    width or below zero are not refused, they mark the whole row or none of
    it. *)
Theorem mask_row_counts_length h self B T :
  valid h self B T ->
  exists mask,
    seq_len_mask self h = (h, Ok mask)
    /\ forall i li, i < B -> length_at h self i = Some li ->
         sum (row mask i) = Z.max 0 (Z.min li (Z.of_nat T)).
Proof.
  intros Hvalid.
  destruct (run_seq_len_mask h self B T Hvalid)
    as (length & mask & Hlength & _ & Hrun & _ & _ & Hshape & Hitem).
  exists mask. split; [done|]. intros i li Hi Hli.
  destruct (valid_length_at h self B T i Hvalid Hi) as (length' & Hl' & Hat).
  assert (length' = length) as -> by congruence.
  assert (li = read length [i]) as -> by congruence.
  rewrite (row_tabulated mask B T i
             (fun t => if (Z.of_nat t <? read length [i])%Z then 1 else 0)%Z);
    [apply sum_prefix_indicator|done..|].
  intros t Ht. by apply Hitem.
Qed.

(** *** More on device transfer *)

Lemma is_length_moved h h' l l' lens dev B :
  h !! l = Some (VTensor lens) -> is_length h l B ->
  h' !! l' = Some (VTensor (moved dev lens)) -> is_length h' l' B.
Proof.
  intros Hl (t & Ht & Hshape & Hdtype & Hok) Hl'.
  assert (t = lens) as -> by congruence.
  by exists (moved dev lens).
Qed.

Lemma is_feature_moved h h' B T dev kv kv' :
  is_feature h B T kv -> same_feature h h' dev kv kv' -> is_feature h' B T kv'.
Proof.
  intros (t & Ht & Hshape & Hok) (_ & t' & Ht' & Hmoved).
  assert (t' = t) as -> by congruence.
  by exists (moved dev t).
Qed.

Lemma valid_mono h h' self B T :
  h `prefix_of` h' -> valid h self B T -> valid h' self B T.
Proof.
  intros Hpre [Hpayload (lens & Hl & Hlens)]. split.
  - destruct Hpayload as [items Hp Hne Hall|t Hp Ht Hok|t H Hp Ht Hok].
    + eapply payload_dict; [by eapply prefix_lookup_Some|done|].
      eapply Forall_impl; [exact Hall|].
      intros kv (t & Ht & Hrest). exists t.
      split; [by eapply prefix_lookup_Some|done].
    + eapply payload_features; [by eapply prefix_lookup_Some|done..].
    + eapply payload_embedding; [by eapply prefix_lookup_Some|done..].
  - exists lens. split; [by eapply prefix_lookup_Some|done].
Qed.

Lemma run_to_keyed_valid h self B T items dev nb :
  valid h self B T ->
  h !! payload self = Some (VDict items) ->
  exists h' new,
    to self dev nb h = (h', Ok new)
    /\ valid h' new B T
    /\ valid h' self B T.
Proof.
  intros Hvalid Hitems.
  destruct (to_relocates_keyed_batch h self B T items dev nb Hvalid Hitems)
    as (h' & new & items' & lens & Hrun & Hpre & Hlens & Hlens' & Hp' & Hsame).
  exists h', new. split; [done|]. split; [|by eapply valid_mono].
  destruct Hvalid as [Hpayload Hlength]. split.
  - destruct Hpayload as [items0 Hp Hne Hall|t Hp _ _|t H Hp _ _];
      unfold payload in Hitems; rewrite Hitems in Hp; [|done..].
    injection Hp as <-.
    eapply payload_dict; [exact Hp'| |].
    + intros ->. apply Forall2_nil_inv_r in Hsame. done.
    + clear Hp' Hitems Hne. induction Hsame as [|kv kv' items items' Hkv _ IH].
      * constructor.
      * apply Forall_cons_1 in Hall as [Hfeat Hall].
        constructor; [by eapply is_feature_moved|by apply IH].
  - by apply (is_length_moved h h' (_length self) (_length new) lens dev B).
Qed.

(** X8. For a well-formed batch with keyed features, [to] returns a new
    batch with the same keys whose lengths and features are the original
    arrays on the target device (same element type, shape and elements); the
    new batch is well formed with the same extents, the original one still
    is, and the heap has only grown. *)
Theorem to_relocates_and_keeps_valid h self B T items dev nb :
  valid h self B T ->
  h !! payload self = Some (VDict items) ->
  exists h' new items' lens,
    to self dev nb h = (h', Ok new)
    /\ h `prefix_of` h'
    /\ h !! seq_lens self = Some (VTensor lens)
    /\ h' !! seq_lens new = Some (VTensor (moved dev lens))
    /\ h' !! payload new = Some (VDict items')
    /\ Forall2 (same_feature h h' dev) items items'
    /\ valid h' new B T
    /\ valid h' self B T.
Proof.
  intros Hvalid Hitems.
  destruct (to_relocates_keyed_batch h self B T items dev nb Hvalid Hitems)
    as (h' & new & items' & lens & Hrun & Hpre & Hl & Hl' & Hp' & Hsame).
  destruct (run_to_keyed_valid h self B T items dev nb Hvalid Hitems)
    as (h'' & new' & Hrun' & Hvalid' & Hvalid'').
  assert (h'' = h' /\ new' = new) as [-> ->] by (split; congruence).
  by exists h', new, items', lens.
Qed.

Lemma dict_comprehension_same_device h items dev nb :
  Forall (feature_on h dev) items ->
  dict_comprehension items dev nb h = (h, Ok items).
Proof.
  induction 1 as [|[k v] rest (t & Hv & Hdev) _ IH]; [done|]. simpl in Hv.
  simpl. erewrite run_bind; cycle 1.
  { unfold tensor_to. rewrite (run_bind _ _ _ _ _ (run_tensor_of _ _ _ _ Hv)).
    by rewrite decide_True. }
  by rewrite (run_bind _ _ _ _ _ IH).
Qed.

(** X9. A transfer to the device where everything already is copies no array:
    the new batch holds the very same references, only the dictionary is
    new. *)
Theorem to_same_device_shares_arrays h self items lens dev nb :
  h !! payload self = Some (VDict items) ->
  h !! seq_lens self = Some (VTensor lens) ->
  t_device lens = dev ->
  Forall (feature_on h dev) items ->
  to self dev nb h
  = (h ++ [VDict items], Ok (__init__ (length h) (seq_lens self))).
Proof.
  intros Hp Hl Hdev Hall. unfold to.
  erewrite run_bind; cycle 1.
  { unfold tensor_to. rewrite (run_bind _ _ _ _ _ (run_tensor_of _ _ _ _ Hl)).
    by rewrite decide_True. }
  rewrite (run_bind _ _ _ _ _ (run_deref _ _ _ Hp)).
  erewrite run_bind by reflexivity.
  rewrite (run_bind _ _ _ _ _ (dict_comprehension_same_device _ _ _ nb Hall)).
  by rewrite (run_bind _ _ _ _ _ (run_alloc _ _)).
Qed.

Lemma same_feature_back h h1 h2 dev d0 items : forall items1 items2,
  Forall (feature_on h d0) items ->
  Forall2 (same_feature h h1 dev) items items1 ->
  Forall2 (same_feature h1 h2 d0) items1 items2 ->
  Forall2 (same_tensor h h2) items items2.
Proof.
  induction items as [|kv items IH]; intros items1 items2 Hon H1 H2.
  - apply Forall2_nil_inv_l in H1 as ->.
    apply Forall2_nil_inv_l in H2 as ->. constructor.
  - apply Forall2_cons_inv_l in H1 as (kv1 & rest1 & Hkv1 & H1 & ->).
    apply Forall2_cons_inv_l in H2 as (kv2 & rest2 & Hkv2 & H2 & ->).
    apply Forall_cons_1 in Hon as [(t0 & Ht0 & Hd0) Hon].
    constructor; [|by eapply IH].
    destruct Hkv1 as (Hk1 & t & Ht & Ht1), Hkv2 as (Hk2 & t1 & Ht1' & Ht2).
    split; [congruence|]. exists t. split; [done|].
    assert (t0 = t) as -> by congruence.
    assert (t1 = moved dev t) as -> by congruence.
    rewrite Ht2. do 2 f_equal. unfold moved. simpl. rewrite <- Hd0.
    by destruct t.
Qed.

(** X10. There and back: a well-formed keyed batch whose arrays are all on
    one device, transferred to another device and then back, gives a batch
    with the same keys whose lengths and features equal the original ones;
    the original cells are untouched. *)
Theorem to_round_trip h self B T items lens d0 dev nb nb' :
  valid h self B T ->
  h !! payload self = Some (VDict items) ->
  h !! seq_lens self = Some (VTensor lens) ->
  t_device lens = d0 ->
  Forall (feature_on h d0) items ->
  exists h1 away h2 back items2,
    to self dev nb h = (h1, Ok away)
    /\ to away d0 nb' h1 = (h2, Ok back)
    /\ h `prefix_of` h2
    /\ h2 !! seq_lens back = Some (VTensor lens)
    /\ h2 !! payload back = Some (VDict items2)
    /\ Forall2 (same_tensor h h2) items items2.
Proof.
  intros Hvalid Hitems Hlens Hd0 Hon.
  destruct (to_relocates_keyed_batch h self B T items dev nb Hvalid Hitems)
    as (h1 & away & items1 & lens' & Hrun1 & Hpre1 & Hl & Hl1 & Hp1 & Hsame1).
  assert (lens' = lens) as -> by (unfold seq_lens in *; congruence).
  destruct (run_to_keyed_valid h self B T items dev nb Hvalid Hitems)
    as (h1' & away' & Hrun1' & Hvalid1 & _).
  assert (h1' = h1 /\ away' = away) as [-> ->] by (split; congruence).
  destruct (to_relocates_keyed_batch h1 away B T items1 d0 nb' Hvalid1 Hp1)
    as (h2 & back & items2 & lens1 & Hrun2 & Hpre2 & Hl1' & Hl2 & Hp2 & Hsame2).
  assert (lens1 = moved dev lens) as -> by (unfold seq_lens in *; congruence).
  exists h1, away, h2, back, items2.
  split; [done|]. split; [done|]. split; [by etransitivity|].
  split.
  { rewrite Hl2. do 2 f_equal. unfold moved. simpl. rewrite <- Hd0.
    by destruct lens. }
  split; [done|]. by eapply same_feature_back.
Qed.

(** X11. The mask does not depend on where the batch is: the mask of a
    transferred keyed batch is on the target device and has the shape and
    the entries of the mask of the original. *)
Theorem seq_len_mask_after_to h self B T items dev nb :
  valid h self B T ->
  h !! payload self = Some (VDict items) ->
  exists h' new mask mask',
    to self dev nb h = (h', Ok new)
    /\ seq_len_mask self h = (h, Ok mask)
    /\ seq_len_mask new h' = (h', Ok mask')
    /\ t_device mask' = dev
    /\ t_shape mask' = t_shape mask
    /\ forall i t, i < B -> t < T -> item mask' [i; t] = item mask [i; t].
Proof.
  intros Hvalid Hitems.
  destruct (to_relocates_keyed_batch h self B T items dev nb Hvalid Hitems)
    as (h' & new & items' & lens & Hrun & Hpre & Hl & Hl' & _).
  destruct (run_to_keyed_valid h self B T items dev nb Hvalid Hitems)
    as (h'' & new' & Hrun' & Hvalid' & _).
  assert (h'' = h' /\ new' = new) as [-> ->] by (split; congruence).
  destruct (run_seq_len_mask h self B T Hvalid)
    as (lens0 & mask & Hl0 & _ & Hmask & _ & _ & Hshape & Hitem).
  destruct (run_seq_len_mask h' new B T Hvalid')
    as (lens1 & mask' & Hl1 & _ & Hmask' & Hdev' & _ & Hshape' & Hitem').
  assert (lens0 = lens) as -> by (unfold seq_lens in *; congruence).
  assert (lens1 = moved dev lens) as -> by (unfold seq_lens in *; congruence).
  exists h', new, mask, mask'. do 3 (split; [done|]).
  split; [done|]. split; [congruence|].
  intros i t Hi Ht. by rewrite Hitem, Hitem'.
Qed.

(** *** The extra properties at concrete batches *)

Lemma examples_host_valid : valid examples.host_heap examples.keyed 3 4.
Proof.
  split.
  - eapply payload_dict; [reflexivity|done|].
    repeat constructor. by exists examples.amount.
  - by exists examples.host_lengths.
Qed.

Lemma examples_host_on_cpu :
  Forall (feature_on examples.host_heap cpu) [("amount", 0)].
Proof. repeat constructor. by exists examples.amount. Qed.

Lemma seq_len_mask_looks_at_first_feature_witness :
  (sized examples.ragged_heap (_payload examples.ragged) 3 4
   /\ is_length examples.ragged_heap (_length examples.ragged) 3)
  /\ exists mask,
       seq_len_mask examples.ragged examples.ragged_heap
       = (examples.ragged_heap, Ok mask)
       /\ t_shape mask = [3; 4]
       /\ forall i t, i < 3 -> t < 4 ->
            exists li,
              length_at examples.ragged_heap examples.ragged i = Some li
              /\ (item mask [i; t] = Some 1%Z <-> (Z.of_nat t < li)%Z)
              /\ (item mask [i; t] = Some 0%Z <-> (li <= Z.of_nat t)%Z).
Proof.
  assert (Hs : sized examples.ragged_heap (_payload examples.ragged) 3 4)
    by by eapply (sized_dict _ _ _ _ _ _ _ examples.amount).
  assert (Hl : is_length examples.ragged_heap (_length examples.ragged) 3)
    by by exists examples.lengths.
  split; [done|].
  exact (seq_len_mask_looks_at_first_feature _ _ 3 4 Hs Hl).
Defined.

Lemma seq_len_mask_empty_mapping_witness :
  examples.empty_heap !! payload examples.empty = Some (VDict [])
  /\ seq_len_mask examples.empty examples.empty_heap
     = (examples.empty_heap, Raise StopIteration).
Proof.
  split; [reflexivity|].
  exact (seq_len_mask_empty_mapping examples.empty_heap examples.empty eq_refl).
Defined.

Lemma seq_len_mask_wrong_rank_witness :
  (examples.heap !! payload (__init__ 2 2) = Some (VTensor examples.lengths)
   /\ length (t_shape examples.lengths) < 2)
  /\ seq_len_mask (__init__ 2 2) examples.heap
     = (examples.heap, Raise (ValueError "unpack: expected 2 values")).
Proof.
  assert (Hrank : length (t_shape examples.lengths) < 2) by (simpl; lia).
  split; [by split|].
  apply (seq_len_mask_wrong_rank examples.heap (__init__ 2 2)).
  right. by exists examples.lengths.
Defined.

Lemma seq_len_mask_length_mismatch_witness :
  sized examples.short_heap (payload examples.short) 3 4
  /\ seq_len_mask examples.short examples.short_heap
     = (examples.short_heap, Raise (RuntimeError "shapes cannot be broadcast")).
Proof.
  assert (Hs : sized examples.short_heap (payload examples.short) 3 4)
    by by eapply (sized_tensor _ _ _ _ examples.amount).
  split; [done|].
  apply (seq_len_mask_length_mismatch examples.short_heap examples.short
           3 4 2 examples.short_lengths Hs); (reflexivity || lia).
Defined.

Lemma mask_row_counts_length_witness :
  valid examples.heap examples.keyed 3 4
  /\ exists mask,
       seq_len_mask examples.keyed examples.heap = (examples.heap, Ok mask)
       /\ forall i li, i < 3 ->
            length_at examples.heap examples.keyed i = Some li ->
            sum (row mask i) = Z.max 0 (Z.min li (Z.of_nat 4)).
Proof.
  split; [exact examples_keyed_valid|].
  exact (mask_row_counts_length _ _ 3 4 examples_keyed_valid).
Defined.

Lemma to_relocates_and_keeps_valid_witness :
  (valid examples.heap examples.keyed 3 4
   /\ examples.heap !! payload examples.keyed = Some (VDict [("amount", 0)]))
  /\ exists h' new items' lens,
       to examples.keyed (cuda 0) false examples.heap = (h', Ok new)
       /\ examples.heap `prefix_of` h'
       /\ examples.heap !! seq_lens examples.keyed = Some (VTensor lens)
       /\ h' !! seq_lens new = Some (VTensor (moved (cuda 0) lens))
       /\ h' !! payload new = Some (VDict items')
       /\ Forall2 (same_feature examples.heap h' (cuda 0))
            [("amount", 0)] items'
       /\ valid h' new 3 4
       /\ valid h' examples.keyed 3 4.
Proof.
  split; [split; [exact examples_keyed_valid|reflexivity]|].
  exact (to_relocates_and_keeps_valid _ _ 3 4 _ (cuda 0) false
           examples_keyed_valid eq_refl).
Defined.

Lemma to_tensor_payload_raises_witness :
  (examples.heap !! payload examples.dense = Some (VTensor examples.amount)
   /\ examples.heap !! seq_lens examples.dense
      = Some (VTensor examples.lengths))
  /\ exists l',
       tensor_to (seq_lens examples.dense) cpu true examples.heap
       = (examples.heap ++ [VTensor (moved cpu examples.lengths)], Ok l')
       /\ to examples.dense cpu true examples.heap
          = (examples.heap ++ [VTensor (moved cpu examples.lengths)],
             Raise (AttributeError "'Tensor' object has no attribute 'items'")).
Proof.
  split; [by split|].
  destruct (to_tensor_payload_raises examples.heap examples.dense
              examples.amount examples.lengths cpu true eq_refl eq_refl)
    as (h' & l' & Hrun & _ & Hh' & Hto & _).
  rewrite decide_False in Hh' by done. subst h'.
  exists l'. by split.
Defined.

Lemma to_same_device_shares_arrays_witness :
  (examples.host_heap !! payload examples.keyed = Some (VDict [("amount", 0)])
   /\ Forall (feature_on examples.host_heap cpu) [("amount", 0)])
  /\ to examples.keyed cpu false examples.host_heap
     = (examples.host_heap ++ [VDict [("amount", 0)]], Ok (__init__ 3 2)).
Proof.
  split; [split; [reflexivity|exact examples_host_on_cpu]|].
  exact (to_same_device_shares_arrays examples.host_heap examples.keyed
           _ examples.host_lengths cpu false eq_refl eq_refl eq_refl
           examples_host_on_cpu).
Defined.

Lemma to_round_trip_witness :
  (valid examples.host_heap examples.keyed 3 4
   /\ Forall (feature_on examples.host_heap cpu) [("amount", 0)])
  /\ exists h1 away h2 back items2,
       to examples.keyed (cuda 0) false examples.host_heap = (h1, Ok away)
       /\ to away cpu false h1 = (h2, Ok back)
       /\ examples.host_heap `prefix_of` h2
       /\ h2 !! seq_lens back = Some (VTensor examples.host_lengths)
       /\ h2 !! payload back = Some (VDict items2)
       /\ Forall2 (same_tensor examples.host_heap h2) [("amount", 0)] items2.
Proof.
  split; [split; [exact examples_host_valid|exact examples_host_on_cpu]|].
  exact (to_round_trip examples.host_heap examples.keyed 3 4 _
           examples.host_lengths cpu (cuda 0) false false
           examples_host_valid eq_refl eq_refl eq_refl examples_host_on_cpu).
Defined.

Lemma seq_len_mask_after_to_witness :
  (valid examples.host_heap examples.keyed 3 4
   /\ examples.host_heap !! payload examples.keyed
      = Some (VDict [("amount", 0)]))
  /\ exists h' new mask mask',
       to examples.keyed (cuda 1) false examples.host_heap = (h', Ok new)
       /\ seq_len_mask examples.keyed examples.host_heap
          = (examples.host_heap, Ok mask)
       /\ seq_len_mask new h' = (h', Ok mask')
       /\ t_device mask' = cuda 1
       /\ t_shape mask' = t_shape mask
       /\ forall i t, i < 3 -> t < 4 -> item mask' [i; t] = item mask [i; t].
Proof.
  split; [split; [exact examples_host_valid|reflexivity]|].
  exact (seq_len_mask_after_to examples.host_heap examples.keyed 3 4 _
           (cuda 1) false examples_host_valid eq_refl).
Defined.

End padded_batch_facts.

(** ** Method resolution *)

Section linearisation_facts.
Import py_class.
Context {C : Type} `{EqDecision C}.
Implicit Types (c x : C) (s l : list C) (seqs : list (list C)).

Lemma fmap_Ok {A B} (f : A -> B) (r : result A) b :
  f <$> r = Ok b -> exists a, r = Ok a /\ b = f a.
Proof. destruct r as [a|e]; [|done]. intros [= <-]. by exists a. Qed.

Lemma next_candidate_spec seqs rest c :
  next_candidate seqs rest = Some c ->
  is_candidate seqs c = true /\ exists s, s ∈ rest /\ head s = Some c.
Proof.
  induction rest as [|[|x t] rest IH]; simpl; [done|..].
  - intros (Hc & s & Hs & Hhd)%IH. split; [done|].
    exists s. split; [by right|done].
  - destruct (is_candidate seqs x) eqn:Hx.
    + intros [= ->]. split; [done|]. exists (c :: t). split; [by left|done].
    + intros (Hc & s & Hs & Hhd)%IH. split; [done|].
      exists s. split; [by right|done].
Qed.

Lemma is_candidate_spec seqs c s :
  is_candidate seqs c = true -> s ∈ seqs -> c ∉ tail s.
Proof.
  unfold is_candidate. intros Hc Hs.
  apply Is_true_true_2, forallb_True in Hc.
  rewrite Forall_forall in Hc. specialize (Hc s Hs).
  unfold in_tail in Hc. apply negb_True in Hc.
  by rewrite bool_decide_spec in Hc.
Qed.

Lemma exhausted_spec seqs s : exhausted seqs = true -> s ∈ seqs -> s = [].
Proof.
  unfold exhausted. intros He Hs.
  apply Is_true_true_2, forallb_True in He.
  rewrite Forall_forall in He. specialize (He s Hs).
  by rewrite bool_decide_spec in He.
Qed.

Lemma elem_of_drop_head c s x : x ∈ drop_head c s -> x ∈ s.
Proof.
  destruct s as [|y t]; simpl; [done|].
  case_decide; [by right|done].
Qed.

Lemma not_elem_of_drop_head c s : c ∉ tail s -> c ∉ drop_head c s.
Proof.
  destruct s as [|y t]; simpl; [done|].
  case_decide; [done|]. intros Ht [->|Hc]%elem_of_cons; done.
Qed.

Lemma sublist_drop_head c s l :
  drop_head c s `sublist_of` l -> s `sublist_of` c :: l.
Proof.
  destruct s as [|y t]; simpl; [intros; apply sublist_nil_l|].
  case_decide as Hy.
  - subst y. apply sublist_skip.
  - apply sublist_cons.
Qed.

Lemma length_drop_head c s : length (drop_head c s) <= length s.
Proof. destruct s as [|y t]; simpl; [done|]. case_decide; simpl; lia. Qed.

Lemma total_drop_head_le seqs c : total (drop_head c <$> seqs) <= total seqs.
Proof.
  induction seqs as [|s seqs IH]; csimpl; [done|].
  pose proof (length_drop_head c s). lia.
Qed.

Lemma total_drop_head seqs c s :
  s ∈ seqs -> head s = Some c -> total (drop_head c <$> seqs) < total seqs.
Proof.
  induction seqs as [|s' seqs IH]; [by intros ?%elem_of_nil|].
  intros [->|Hs]%elem_of_cons Hhd; csimpl.
  - pose proof (total_drop_head_le seqs c).
    destruct s' as [|y t]; [done|]. csimpl in *.
    injection Hhd as ->. rewrite decide_True by done. lia.
  - specialize (IH Hs Hhd). pose proof (length_drop_head c s'). lia.
Qed.

Lemma total_0 seqs s : total seqs = 0 -> s ∈ seqs -> s = [].
Proof.
  induction seqs as [|s' seqs IH]; [by intros _ ?%elem_of_nil|].
  simpl. intros Ht [->|Hs]%elem_of_cons.
  - apply length_zero_iff_nil. lia.
  - apply IH; [lia|done].
Qed.

(** The merge only yields classes of its sequences, each once, and keeps
    the order of every sequence. *)
Lemma merge_rounds_elem n : forall seqs l x,
  merge_rounds n seqs = Ok l -> x ∈ l -> exists s, s ∈ seqs /\ x ∈ s.
Proof.
  induction n as [|n IH]; intros seqs l x; simpl.
  - by intros [= <-] ?%elem_of_nil.
  - destruct (exhausted seqs); [by intros [= <-] ?%elem_of_nil|].
    destruct (next_candidate seqs seqs) as [c|] eqn:Hc; [|done].
    intros (l' & Hl' & ->)%fmap_Ok [->|Hx]%elem_of_cons.
    + apply next_candidate_spec in Hc as (_ & s & Hs & Hhd).
      exists s. split; [done|]. destruct s; [done|].
      injection Hhd as ->. by left.
    + destruct (IH _ _ _ Hl' Hx) as (s' & Hs' & Hxs').
      apply list_elem_of_fmap in Hs' as (s & -> & Hs).
      exists s. split; [done|]. by eapply elem_of_drop_head.
Qed.

Lemma merge_rounds_NoDup n : forall seqs l,
  merge_rounds n seqs = Ok l -> NoDup l.
Proof.
  induction n as [|n IH]; intros seqs l; simpl.
  - intros [= <-]. constructor.
  - destruct (exhausted seqs); [intros [= <-]; constructor|].
    destruct (next_candidate seqs seqs) as [c|] eqn:Hc; [|done].
    intros (l' & Hl' & ->)%fmap_Ok.
    constructor; [|by eapply IH].
    intros (s' & Hs' & Hcs')%(merge_rounds_elem _ _ _ _ Hl').
    apply list_elem_of_fmap in Hs' as (s & -> & Hs).
    apply next_candidate_spec in Hc as (Hc & _).
    apply (not_elem_of_drop_head c s); [|done].
    by eapply is_candidate_spec.
Qed.

Lemma merge_rounds_sublist n : forall seqs l s,
  total seqs <= n -> merge_rounds n seqs = Ok l -> s ∈ seqs ->
  s `sublist_of` l.
Proof.
  induction n as [|n IH]; intros seqs l s Hn; simpl.
  - intros [= <-] Hs. rewrite (total_0 seqs s); [done|lia|done].
  - destruct (exhausted seqs) eqn:He.
    { intros [= <-] Hs. by rewrite (exhausted_spec seqs s). }
    destruct (next_candidate seqs seqs) as [c|] eqn:Hc; [|done].
    intros (l' & Hl' & ->)%fmap_Ok Hs.
    apply next_candidate_spec in Hc as (_ & s0 & Hs0 & Hhd).
    pose proof (total_drop_head seqs c s0 Hs0 Hhd).
    apply sublist_drop_head. eapply IH; [|exact Hl'|]; [lia|].
    apply list_elem_of_fmap. by exists s.
Qed.

Lemma exhausted_total_0 seqs : total seqs = 0 -> exhausted seqs = true.
Proof.
  induction seqs as [|s seqs IH]; [done|]. simpl. intros Ht.
  destruct s; simpl in *; [|lia]. apply IH. lia.
Qed.

(** More rounds than [total seqs] change nothing. *)
Lemma merge_rounds_enough n : forall m seqs,
  total seqs <= n -> total seqs <= m ->
  merge_rounds n seqs = merge_rounds m seqs.
Proof.
  induction n as [|n IH]; intros [|m] seqs Hn Hm; simpl; [done|..].
  - by rewrite exhausted_total_0 by lia.
  - by rewrite exhausted_total_0 by lia.
  - destruct (exhausted seqs) eqn:He; [done|].
    destruct (next_candidate seqs seqs) as [c|] eqn:Hc; [|done].
    destruct (next_candidate_spec _ _ _ Hc) as (_ & s & Hs & Hhd).
    pose proof (total_drop_head seqs c s Hs Hhd).
    rewrite (IH m) by lia. done.
Qed.

(** A single sequence merges into itself. *)
Lemma merge_rounds_single l : forall n,
  NoDup l -> length l <= n -> merge_rounds n [l; []] = Ok l.
Proof.
  induction l as [|x l IH]; intros n Hnd Hn.
  - by destruct n.
  - destruct n as [|n]; simpl in Hn; [lia|].
    apply NoDup_cons in Hnd as [Hx Hnd]. simpl.
    unfold is_candidate, in_tail. simpl.
    rewrite bool_decide_eq_false_2 by done. simpl.
    rewrite decide_True by done.
    rewrite IH by (done || lia). done.
Qed.








Context {Op : Type}.
Implicit Types (ns : C -> gmap string Op).

Lemma definer_Some ns l name c :
  definer ns l name = Some c -> c ∈ l /\ is_Some (ns c !! name).
Proof.
  induction l as [|x l IH]; simpl; [done|].
  case_decide as Hx.
  - intros [= ->]. split; [by left|done].
  - intros [Hc Hsome]%IH. split; [by right|done].
Qed.

Lemma definer_None ns l name c :
  definer ns l name = None -> c ∈ l -> ns c !! name = None.
Proof.
  induction l as [|x l IH]; simpl; [by intros _ ?%elem_of_nil|].
  case_decide as Hx; [done|].
  intros Hl [->|Hc]%elem_of_cons; [|by apply IH].
  by apply eq_None_not_Some.
Qed.

(** A class that defines a name first in an order also defines it first in
    every sub-order it belongs to. *)
Lemma definer_sublist ns s l name c :
  s `sublist_of` l -> NoDup l ->
  definer ns l name = Some c -> c ∈ s -> definer ns s name = Some c.
Proof.
  induction 1 as [|x s l Hsub IH|x s l Hsub IH]; intros Hnd; simpl.
  - done.
  - apply NoDup_cons in Hnd as [_ Hnd].
    case_decide as Hx; [done|].
    intros Hdef [->|Hc]%elem_of_cons; [|by apply IH].
    by apply definer_Some in Hdef as [_ ?].
  - apply NoDup_cons in Hnd as [Hx Hnd].
    case_decide as Hdefx; [|by apply IH].
    intros [= ->] Hc. destruct Hx. by eapply sublist_subseteq.
Qed.

Lemma getattr_sublist ns s l name c :
  s `sublist_of` l -> NoDup l ->
  definer ns l name = Some c -> c ∈ s ->
  getattr ns s name = getattr ns l name.
Proof.
  intros Hsub Hnd Hdef Hc. unfold getattr.
  by rewrite Hdef, (definer_sublist ns s l name c).
Qed.

Lemma getattr_None ns s l name :
  s ⊆ l -> definer ns l name = None -> getattr ns s name = None.
Proof.
  intros Hsub Hdef. unfold getattr.
  destruct (definer ns s name) as [c|] eqn:Hs; [|done]. simpl.
  apply definer_Some in Hs as [Hc _].
  by eapply definer_None, Hsub.
Qed.

End linearisation_facts.

(** ** The GPT dataset classes *)

Section gpt_dataset_facts.
Import py_class gpt_dataset.
Context {Op : Type}.
Variable imported_mro : string -> list string.
Variable imported_dict : string -> gmap string Op.

Local Abbreviation mlm_mro := (mro_of_imported imported_mro MlmDataset).
Local Abbreviation iterable_mro := (mro_of_imported imported_mro IterableDataset).
Local Abbreviation ns := (namespace imported_dict).

(** What Python guarantees of the orders of the imported classes: each
    starts with the class itself and repeats no class. *)
Hypothesis MlmDataset_first : head (imported_mro MlmDataset) = Some MlmDataset.
Hypothesis MlmDataset_NoDup : NoDup (imported_mro MlmDataset).
Hypothesis IterableDataset_first :
  head (imported_mro IterableDataset) = Some IterableDataset.

Lemma GptDataset_mro_eq :
  GptDataset_mro imported_mro = Ok (GptDataset :: mlm_mro).
Proof using MlmDataset_first MlmDataset_NoDup.
  unfold GptDataset_mro, class_statement, merge, mro_of_imported.
  destruct (imported_mro MlmDataset) as [|x r] eqn:Hmro; [done|].
  injection MlmDataset_first as ->.
  apply NoDup_cons in MlmDataset_NoDup as [Hx Hnd].
  assert (Hx' : Imported MlmDataset ∉ Imported <$> r).
  { intros (y & [= <-] & Hy)%list_elem_of_fmap. done. }
  csimpl. unfold is_candidate, in_tail. csimpl.
  rewrite bool_decide_eq_false_2 by done. csimpl.
  rewrite merge_rounds_single; [done|..].
  - apply NoDup_fmap_2; [|done]. by intros ?? [=].
  - lia.
Qed.

Lemma getattr_pass (c : Class) mro name :
  ns c = ∅ -> getattr ns (c :: mro) name = getattr ns mro name.
Proof.
  intros Hc. unfold getattr. simpl. rewrite Hc, lookup_empty.
  by rewrite decide_False by by intros [? ?].
Qed.

Lemma IterableDataset_in_mro : Imported IterableDataset ∈ iterable_mro.
Proof using IterableDataset_first.
  unfold mro_of_imported.
  destruct (imported_mro IterableDataset) as [|x r]; [done|].
  injection IterableDataset_first as ->. by left.
Qed.

(** The resolution order of [GptIterableDataset], when there is one. *)
Lemma GptIterableDataset_mro_facts mro :
  GptIterableDataset_mro imported_mro = Ok mro ->
  exists l,
    mro = GptIterableDataset :: l
    /\ NoDup l
    /\ (GptDataset :: mlm_mro) `sublist_of` l
    /\ iterable_mro `sublist_of` l
    /\ forall c, c ∈ l -> c ∈ GptDataset :: mlm_mro \/ c ∈ iterable_mro.
Proof using MlmDataset_first MlmDataset_NoDup IterableDataset_first.
  intros Hmro. unfold GptIterableDataset_mro in Hmro.
  rewrite GptDataset_mro_eq in Hmro.
  pose (seqs := [GptDataset :: mlm_mro; iterable_mro;
                 [GptDataset; Imported IterableDataset]]).
  change (cons GptIterableDataset <$> merge_rounds (total seqs) seqs = Ok mro)
    in Hmro.
  apply fmap_Ok in Hmro as (l & Hl & ->).
  exists l. split; [done|].
  split; [by eapply merge_rounds_NoDup|].
  assert (Hsub : forall s, s ∈ seqs -> s `sublist_of` l).
  { intros s. by apply (merge_rounds_sublist _ _ _ _ (Nat.le_refl _) Hl). }
  split; [apply Hsub; by left|]. split; [apply Hsub; right; by left|].
  pose proof IterableDataset_in_mro as Hfirst.
  intros c (s & Hs & Hc)%(merge_rounds_elem _ _ _ _ Hl).
  unfold seqs in Hs.
  apply elem_of_cons in Hs as [->|Hs]; [by left|].
  apply elem_of_cons in Hs as [->|Hs]; [by right|].
  apply list_elem_of_singleton in Hs as ->.
  apply elem_of_cons in Hc as [->|Hc]; [left; by left|].
  apply list_elem_of_singleton in Hc as ->. by right.
Qed.

(** In an order made of two of its sub-orders, a name that one of them does
    not know resolves as in the other. *)
Lemma getattr_one_side (s s' l : list Class) name :
  NoDup l -> s `sublist_of` l -> s' `sublist_of` l ->
  (forall c, c ∈ l -> c ∈ s \/ c ∈ s') ->
  getattr ns s' name = None ->
  getattr ns l name = getattr ns s name.
Proof.
  intros Hnd Hs Hs' Hin Hnone.
  destruct (definer ns l name) as [c|] eqn:Hdef.
  - destruct (definer_Some _ _ _ _ Hdef) as [Hc [v Hv]].
    destruct (Hin c Hc) as [Hcs|Hcs'].
    + symmetry. by eapply getattr_sublist.
    + rewrite (getattr_sublist ns s' l name c Hs' Hnd Hdef Hcs') in Hnone.
      unfold getattr in Hnone. rewrite Hdef in Hnone. simpl in Hnone.
      congruence.
  - unfold getattr at 1. rewrite Hdef. symmetry.
    eapply getattr_None; [|done]. by apply sublist_subseteq.
Qed.


(** When the class that defines a name first in one sub-order also belongs
    to the other, the other sub-order decides. *)
Lemma getattr_shared (s s' l : list Class) name c :
  NoDup l -> s `sublist_of` l -> s' `sublist_of` l ->
  (forall c, c ∈ l -> c ∈ s \/ c ∈ s') ->
  definer ns s' name = Some c -> c ∈ s ->
  getattr ns l name = getattr ns s name.
Proof.
  intros Hnd Hs Hs' Hin Hdef' Hcs.
  destruct (definer_Some _ _ _ _ Hdef') as [Hcs' [v Hv]].
  destruct (definer ns l name) as [c'|] eqn:Hdef.
  - destruct (definer_Some _ _ _ _ Hdef) as [Hc' _].
    destruct (Hin c' Hc') as [Hc's|Hc's'].
    + symmetry. by eapply getattr_sublist.
    + pose proof (definer_sublist ns s' l name c' Hs' Hnd Hdef Hc's') as Heq.
      rewrite Hdef' in Heq. injection Heq as ->.
      symmetry. by eapply getattr_sublist.
  - assert (ns c !! name = None); [|congruence].
    eapply definer_None; [exact Hdef|]. by eapply elem_of_sublist.
Qed.

Lemma imported_names_fmap (m : list string) :
  imported_names (Imported <$> m) = m.
Proof. induction m as [|x m IH]; csimpl; [done|]. by f_equal. Qed.

Lemma imported_names_sublist (s l : list Class) :
  s `sublist_of` l -> imported_names s `sublist_of` imported_names l.
Proof.
  induction 1 as [|x s l Hsub IH|x s l Hsub IH]; [done|..].
  - destruct x; csimpl; [by apply sublist_skip|done..].
  - destruct x; csimpl; [by apply sublist_cons|done..].
Qed.

Lemma imported_names_NoDup (l : list Class) :
  NoDup l -> NoDup (imported_names l).
Proof.
  induction 1 as [|x l Hx Hnd IH]; [constructor|].
  destruct x as [name| |]; csimpl; [|done..].
  apply NoDup_cons. split; [|done].
  intros (c & Hc & Hname)%list_elem_of_omap.
  destruct c; simplify_eq. done.
Qed.

(** A resolution order of [GptIterableDataset] extends the orders of the two
    imported classes. *)
Lemma GptIterableDataset_mro_compatible mro :
  GptIterableDataset_mro imported_mro = Ok mro ->
  exists L, NoDup L
    /\ imported_mro MlmDataset `sublist_of` L
    /\ imported_mro IterableDataset `sublist_of` L.
Proof using MlmDataset_first MlmDataset_NoDup IterableDataset_first.
  intros (l & -> & Hnd & Hgd & Hit & _)%GptIterableDataset_mro_facts.
  exists (imported_names l). split; [by apply imported_names_NoDup|].
  split.
  - apply imported_names_sublist in Hgd.
    change (imported_names (GptDataset :: mlm_mro))
      with (imported_names mlm_mro) in Hgd.
    unfold mro_of_imported in Hgd. by rewrite imported_names_fmap in Hgd.
  - apply imported_names_sublist in Hit.
    unfold mro_of_imported in Hit. by rewrite imported_names_fmap in Hit.
Qed.

(** The two orders agree on the classes they share: some order without
    repetition extends both.  The class statement of [GptIterableDataset]
    goes through exactly then ([GptIterableDataset_mro_compatible],
    [GptIterableDataset_mro_succeeds]). *)
Hypothesis orders_compatible :
  exists L, NoDup L
    /\ imported_mro MlmDataset `sublist_of` L
    /\ imported_mro IterableDataset `sublist_of` L.



(** X21. When the class statement of [GptIterableDataset] succeeds, its
    resolution order starts with the class itself, repeats no class, and
    keeps the classes of [GptDataset] and those of [IterableDataset] each in
    their own order. *)
Theorem GptIterableDataset_mro_keeps_base_orders mro :
  GptIterableDataset_mro imported_mro = Ok mro ->
  head mro = Some GptIterableDataset
  /\ NoDup mro
  /\ (GptDataset :: mlm_mro) `sublist_of` mro
  /\ iterable_mro `sublist_of` mro.
Proof using MlmDataset_first MlmDataset_NoDup IterableDataset_first.
  intros (l & -> & Hnd & Hgd & Hit & Hin)%GptIterableDataset_mro_facts.
  split; [done|]. split; [|split; by apply sublist_cons].
  apply NoDup_cons. split; [|done].
  intros [Hc|Hc]%Hin.
  - apply elem_of_cons in Hc as [?|Hc]; [done|].
    by apply list_elem_of_fmap in Hc as (? & ? & _).
  - by apply list_elem_of_fmap in Hc as (? & ? & _).
Qed.

(** X22. Which base decides a name of [GptIterableDataset].  A name that
    [IterableDataset] and its ancestors do not define resolves as in
    [GptDataset].  A name both sides define resolves as in [GptDataset] when
    the class that defines it for [IterableDataset] is an ancestor the two
    share, and as in [IterableDataset] when the class that defines it for
    [GptDataset] is such a shared ancestor. *)
Theorem GptIterableDataset_name_origin mro name :
  GptIterableDataset_mro imported_mro = Ok mro ->
  (getattr ns iterable_mro name = None ->
   getattr ns mro name = getattr ns (GptDataset :: mlm_mro) name)
  /\ (forall c, definer ns iterable_mro name = Some c ->
        c ∈ GptDataset :: mlm_mro ->
        getattr ns mro name = getattr ns (GptDataset :: mlm_mro) name)
  /\ (forall c, definer ns (GptDataset :: mlm_mro) name = Some c ->
        c ∈ iterable_mro ->
        getattr ns mro name = getattr ns iterable_mro name).
Proof using MlmDataset_first MlmDataset_NoDup IterableDataset_first.
  intros (l & -> & Hnd & Hgd & Hit & Hin)%GptIterableDataset_mro_facts.
  rewrite getattr_pass by done. split; [|split].
  - intros Hnone. by apply (getattr_one_side _ iterable_mro).
  - intros c Hdef Hc. by apply (getattr_shared _ iterable_mro _ _ c).
  - intros c Hdef Hc.
    apply (getattr_shared _ (GptDataset :: mlm_mro) _ _ c); try done.
    intros c' Hc'. destruct (Hin c' Hc'); [by right|by left].
Qed.

End gpt_dataset_facts.

(** ** The dispatcher *)

Section dispatcher_facts.
Import pl_train_module.

Lemma main_eq w conf :
  main w conf
  = (seeding w conf;;
     data_module ← for_data_module conf [ColesDataModuleTrain; CpcDataModuleTrain];
     data_module ← match data_module with
                   | Some m => mret m
                   | None =>
                       name ← lift (getitem conf "params.data_module_name");
                       throw (NotImplementedError
                                ("Unknown data module " +:+ str w name))
                   end;
     info (DataModule__name__ data_module +:+ " used");;
     pl_module ← for_pl_module conf [CoLESModule; CpcModule];
     pl_module ← match pl_module with
                 | Some m => mret m
                 | None =>
                     name ← lift (getitem conf "params.pl_module_name");
                     throw (NotImplementedError
                              ("Unknown pl module " +:+ str w name))
                 end;
     info (PlModule__name__ pl_module +:+ " used");;
     construct_and_run w conf data_module pl_module).
Proof. reflexivity. Qed.

(** Case analysis on the next call or look-up of a run, in program order. *)
Ltac run_case :=
  first
    [ match goal with
      | |- context [respond ?w ?c] => destruct (respond w c) eqn:?
      end
    | match goal with
      | |- context [kwargs_of ?v] => destruct (kwargs_of v) eqn:?
      end
    | match goal with
      | |- context [getitem ?c "params"] =>
          destruct (getitem c "params") eqn:?
      end
    | match goal with
      | |- context [getitem ?c "data_module"] =>
          destruct (getitem c "data_module") eqn:?
      end
    | match goal with
      | |- context [getitem ?c "trainer"] =>
          destruct (getitem c "trainer") eqn:?
      end
    | match goal with
      | |- context [contains ?c ?k] => destruct (contains c k) eqn:?
      end
    | match goal with
      | |- context [getitem ?c ?k] => destruct (getitem c k) eqn:?
      end ];
  cbn beta iota.

Lemma contains_getitem conf key :
  contains conf key = true <-> exists v, getitem conf key = Ok v.
Proof.
  unfold contains, getitem. rewrite bool_decide_eq_true.
  destruct (lookup_path conf (path_of key)) as [v|]; split.
  - by exists v.
  - done.
  - by intros [? ?].
  - by intros [? ?].
Qed.

(** Every way [construct_and_run] can go. *)
Lemma run_construct_and_run w conf d p tr0 :
  exists evs r,
    construct_and_run w conf d p tr0 = (tr0 ++ evs, r)
    /\ run_facts w conf d p evs r.
Proof.
  unfold construct_and_run, mbind, M_bind, call, lift, info, mret, M_ret.
  repeat run_case.
  all: rewrite <- ?app_assoc.
  all: lazymatch goal with
       | |- exists _ _, (?t ++ ?e, ?r) = _ /\ _ => exists e, r
       | |- exists _ _, (?t, ?r) = _ /\ _ => exists [], r; rewrite app_nil_r
       end.
  all: split; [reflexivity|].
  all: try match goal with
       | Hc : contains ?c ?k = true, Hg : getitem ?c ?k = Raise _ |- _ =>
           apply contains_getitem in Hc as [? ?]; congruence
       end.
  all: unfold run_facts; cbn [app filter list_filter is_step is_save].
  all: repeat match goal with
       | H : kwargs_of ?v = _ |- _ => destruct v; simplify_eq/=
       end.
  all: simpl.
  all: split; [by eauto using follows_steps|].
  all: split; [by (intros; simplify_eq; congruence)|].
  all: split;
         [intros msg ?; simplify_eq;
          try match goal with
          | H : getitem _ _ = Raise _ |- _ =>
              unfold getitem in H; case_match; simplify_eq
          end;
          by (eexists; split; [|eassumption];
              rewrite !elem_of_cons; naive_solver)|].
  all: split; [by (intros; simplify_eq; congruence)|].
  all: split.
  all: intros ? **.
  all: repeat match goal with
       | H : _ ∈ _ |- _ =>
           rewrite ?elem_of_cons, ?elem_of_nil in H; destruct_or?;
           simplify_eq/=
       | H : run_ok _ _ |- _ => destruct H as [? ?]; simplify_eq
       end.
  all: try congruence.
  all: try by eauto.
  all: by (split; [done|]; eexists _, _, _; split;
             [rewrite !elem_of_cons; naive_solver|by eexists]).
Qed.

Lemma name_eq_true name v : name_eq name v = true <-> v = CStr name.
Proof.
  destruct v as [s|z|items]; simpl; [|done..].
  rewrite String.eqb_eq. split; [by intros ->|by intros [= ->]].
Qed.

Lemma name_eq_false name v : name_eq name v = false <-> v <> CStr name.
Proof.
  rewrite <- name_eq_true. by destruct (name_eq name v).
Qed.

Lemma run_for_data_module conf v tr :
  getitem conf "params.data_module_name" = Ok v ->
  exists r,
    for_data_module conf [ColesDataModuleTrain; CpcDataModuleTrain] tr
    = (tr, Ok r)
    /\ forall m, r = Some m <-> v = CStr (DataModule__name__ m).
Proof.
  intros Hv. unfold for_data_module, mbind, M_bind, lift. rewrite Hv.
  cbn beta iota.
  destruct (name_eq (DataModule__name__ ColesDataModuleTrain) v) eqn:Hcoles;
    [|destruct (name_eq (DataModule__name__ CpcDataModuleTrain) v) eqn:Hcpc].
  - apply name_eq_true in Hcoles as ->. eexists. split; [done|].
    intros []; split; intros; simplify_eq; done.
  - apply name_eq_true in Hcpc as ->. eexists. split; [done|].
    intros []; split; intros; simplify_eq; done.
  - apply name_eq_false in Hcoles, Hcpc. eexists. split; [done|].
    intros []; split; intros; simplify_eq; done.
Qed.

Lemma run_for_pl_module conf v tr :
  getitem conf "params.pl_module_name" = Ok v ->
  exists r,
    for_pl_module conf [CoLESModule; CpcModule] tr = (tr, Ok r)
    /\ forall m, r = Some m <-> v = CStr (PlModule__name__ m).
Proof.
  intros Hv. unfold for_pl_module, mbind, M_bind, lift. rewrite Hv.
  cbn beta iota.
  destruct (name_eq (PlModule__name__ CoLESModule) v) eqn:Hcoles;
    [|destruct (name_eq (PlModule__name__ CpcModule) v) eqn:Hcpc].
  - apply name_eq_true in Hcoles as ->. eexists. split; [done|].
    intros []; split; intros; simplify_eq; done.
  - apply name_eq_true in Hcpc as ->. eexists. split; [done|].
    intros []; split; intros; simplify_eq; done.
  - apply name_eq_false in Hcoles, Hcpc. eexists. split; [done|].
    intros []; split; intros; simplify_eq; done.
Qed.

(** C5. Each loop of [main] ends without a call and finds a class exactly
    when the configured value is that class's name: each of the four names
    selects its own class and nothing else selects one. *)
Theorem registry_resolves_by_exact_name conf tr vd vp :
  getitem conf "params.data_module_name" = Ok vd ->
  getitem conf "params.pl_module_name" = Ok vp ->
  (exists r,
     for_data_module conf [ColesDataModuleTrain; CpcDataModuleTrain] tr
     = (tr, Ok r)
     /\ forall m, r = Some m <-> vd = CStr (DataModule__name__ m))
  /\ (exists r,
        for_pl_module conf [CoLESModule; CpcModule] tr = (tr, Ok r)
        /\ forall m, r = Some m <-> vp = CStr (PlModule__name__ m))
  /\ (forall m m' : DataModule,
        DataModule__name__ m = DataModule__name__ m' -> m = m')
  /\ (forall m m' : PlModule,
        PlModule__name__ m = PlModule__name__ m' -> m = m').
Proof.
  intros Hd Hp.
  split; [by apply run_for_data_module|].
  split; [by apply run_for_pl_module|].
  split; intros [] []; done.
Qed.

Lemma quiet_filter_step q evs :
  quiet q -> filter is_step (q ++ evs) = filter is_step evs.
Proof.
  induction 1 as [|c q [Hc _] _ IH]; [done|].
  rewrite <- app_comm_cons, filter_cons_False; [exact IH|].
  rewrite Hc. intros [].
Qed.

Lemma quiet_filter_save q evs :
  quiet q -> filter is_save (q ++ evs) = filter is_save evs.
Proof.
  induction 1 as [|c q [_ Hc] _ IH]; [done|].
  rewrite <- app_comm_cons, filter_cons_False; [exact IH|].
  rewrite Hc. intros [].
Qed.

Lemma quiet_filter_Trainer q : quiet q -> filter is_Trainer q = [].
Proof.
  induction 1 as [|c q [Hc _] _ IH]; [done|].
  rewrite filter_cons_False; [exact IH|]. by destruct c; intros [].
Qed.

Lemma quiet_app q q' : quiet q -> quiet q' -> quiet (q ++ q').
Proof. apply Forall_app_2. Qed.

Lemma quiet_info msg : quiet [logger_info msg].
Proof. by repeat constructor. Qed.

Lemma quiet_elem q evs c :
  quiet q -> c ∈ q ++ evs -> is_step c = true \/ is_save c = true -> c ∈ evs.
Proof.
  intros Hq [Hc|Hc]%elem_of_app Hkind; [|done].
  unfold quiet in Hq. rewrite Forall_forall in Hq.
  destruct (Hq c Hc) as [? ?]. destruct Hkind; congruence.
Qed.

(** Seeding makes at most the one call. *)
Lemma run_seeding w conf :
  exists pre r,
    seeding w conf [] = (pre, r)
    /\ quiet pre
    /\ (seeding_succeeds w conf -> r = Ok tt)
    /\ (forall e, r = Raise e ->
          exists c, c ∈ pre /\ respond w c = Raise e).
Proof.
  unfold seeding, mbind, M_bind, call, lift, mret, M_ret.
  destruct (contains conf "seed_everything") eqn:Hc.
  - apply contains_getitem in Hc as [seed Hseed]. rewrite Hseed.
    cbn beta iota.
    destruct (respond w (seed_everything seed)) as [r|e] eqn:Hr.
    + exists [seed_everything seed], (Ok tt). split; [done|].
      split; [by repeat constructor|].
      split; [done|]. by intros e [=].
    + exists [seed_everything seed], (Raise e). split; [done|].
      split; [by repeat constructor|].
      split.
      * intros Hok. destruct (Hok seed Hseed) as [r Hr']. congruence.
      * intros e' [= <-]. exists (seed_everything seed).
        split; [by apply list_elem_of_singleton|done].
  - exists [], (Ok tt). split; [done|].
    split; [constructor|]. split; [done|]. by intros e [=].
Qed.

Lemma main_seeding_raises w conf pre e :
  seeding w conf [] = (pre, Raise e) -> main w conf [] = (pre, Raise e).
Proof. intros Hseed. rewrite main_eq. by apply run_bind_raise. Qed.

Lemma main_data_missing w conf pre u e :
  seeding w conf [] = (pre, Ok u) ->
  getitem conf "params.data_module_name" = Raise e ->
  main w conf [] = (pre, Raise e).
Proof.
  intros Hseed He. rewrite main_eq, (run_bind _ _ _ _ _ Hseed).
  apply run_bind_raise.
  unfold for_data_module, mbind, M_bind, lift. by rewrite He.
Qed.

Lemma main_unknown_data w conf pre u v :
  seeding w conf [] = (pre, Ok u) ->
  getitem conf "params.data_module_name" = Ok v ->
  (forall m, v <> CStr (DataModule__name__ m)) ->
  main w conf []
  = (pre, Raise (NotImplementedError ("Unknown data module " +:+ str w v))).
Proof.
  intros Hseed Hv Hno. rewrite main_eq, (run_bind _ _ _ _ _ Hseed).
  destruct (run_for_data_module conf v pre Hv) as (r & Hrun & Hr).
  rewrite (run_bind _ _ _ _ _ Hrun).
  destruct r as [m|]; [by destruct (Hno m); apply Hr|].
  apply run_bind_raise.
  unfold mbind, M_bind, lift, throw. by rewrite Hv.
Qed.

Lemma main_pl_missing w conf pre u d e :
  seeding w conf [] = (pre, Ok u) ->
  getitem conf "params.data_module_name" = Ok (CStr (DataModule__name__ d)) ->
  getitem conf "params.pl_module_name" = Raise e ->
  main w conf []
  = (pre ++ [logger_info (DataModule__name__ d +:+ " used")], Raise e).
Proof.
  intros Hseed Hd He. rewrite main_eq, (run_bind _ _ _ _ _ Hseed).
  destruct (run_for_data_module conf _ pre Hd) as (r & Hrun & Hr).
  rewrite (run_bind _ _ _ _ _ Hrun).
  assert (r = Some d) as -> by by apply Hr.
  erewrite run_bind by reflexivity.
  erewrite run_bind by reflexivity.
  apply run_bind_raise.
  unfold for_pl_module, mbind, M_bind, lift. by rewrite He.
Qed.

Lemma main_unknown_pl w conf pre u d v :
  seeding w conf [] = (pre, Ok u) ->
  getitem conf "params.data_module_name" = Ok (CStr (DataModule__name__ d)) ->
  getitem conf "params.pl_module_name" = Ok v ->
  (forall m, v <> CStr (PlModule__name__ m)) ->
  main w conf []
  = (pre ++ [logger_info (DataModule__name__ d +:+ " used")],
     Raise (NotImplementedError ("Unknown pl module " +:+ str w v))).
Proof.
  intros Hseed Hd Hv Hno. rewrite main_eq, (run_bind _ _ _ _ _ Hseed).
  destruct (run_for_data_module conf _ pre Hd) as (r & Hrun & Hr).
  rewrite (run_bind _ _ _ _ _ Hrun).
  assert (r = Some d) as -> by by apply Hr.
  erewrite run_bind by reflexivity.
  erewrite run_bind by reflexivity.
  destruct (run_for_pl_module conf v
              (pre ++ [logger_info (DataModule__name__ d +:+ " used")]) Hv)
    as (r & Hrun' & Hr').
  rewrite (run_bind _ _ _ _ _ Hrun').
  destruct r as [m|]; [by destruct (Hno m); apply Hr'|].
  apply run_bind_raise.
  unfold mbind, M_bind, lift, throw. by rewrite Hv.
Qed.

Lemma main_resolved w conf pre u d p :
  seeding w conf [] = (pre, Ok u) ->
  getitem conf "params.data_module_name" = Ok (CStr (DataModule__name__ d)) ->
  getitem conf "params.pl_module_name" = Ok (CStr (PlModule__name__ p)) ->
  main w conf []
  = construct_and_run w conf d p
      (pre ++ [logger_info (DataModule__name__ d +:+ " used");
               logger_info (PlModule__name__ p +:+ " used")]).
Proof.
  intros Hseed Hd Hp. rewrite main_eq, (run_bind _ _ _ _ _ Hseed).
  destruct (run_for_data_module conf _ pre Hd) as (r & Hrun & Hr).
  rewrite (run_bind _ _ _ _ _ Hrun).
  assert (r = Some d) as -> by by apply Hr.
  erewrite run_bind by reflexivity.
  erewrite run_bind by reflexivity.
  destruct (run_for_pl_module conf _
              (pre ++ [logger_info (DataModule__name__ d +:+ " used")]) Hp)
    as (r & Hrun' & Hr').
  rewrite (run_bind _ _ _ _ _ Hrun').
  assert (r = Some p) as -> by by apply Hr'.
  erewrite run_bind by reflexivity.
  erewrite run_bind by reflexivity.
  by rewrite <- app_assoc.
Qed.

(** A run with both names resolved: seeding raised, or the look-ups were
    logged and the construction took place. *)
Lemma main_resolved_cases w conf d p :
  getitem conf "params.data_module_name" = Ok (CStr (DataModule__name__ d)) ->
  getitem conf "params.pl_module_name" = Ok (CStr (PlModule__name__ p)) ->
  exists q evs r,
    main w conf [] = (q ++ evs, r)
    /\ quiet q
    /\ ((evs = [] /\ ~ seeding_succeeds w conf
         /\ exists e c, r = Raise e /\ c ∈ q /\ respond w c = Raise e)
        \/ run_facts w conf d p evs r).
Proof.
  intros Hd Hp.
  destruct (run_seeding w conf) as (pre & r0 & Hseed & Hquiet & Hok & Hraise).
  destruct r0 as [u|e].
  - rewrite (main_resolved w conf pre u d p Hseed Hd Hp).
    destruct (run_construct_and_run w conf d p
                (pre ++ [logger_info (DataModule__name__ d +:+ " used");
                         logger_info (PlModule__name__ p +:+ " used")]))
      as (evs & r & Hrun & Hfacts).
    eexists _, evs, r. split; [exact Hrun|]. split; [|by right].
    apply quiet_app; [done|]. by repeat constructor.
  - exists pre, [], (Raise e). rewrite app_nil_r.
    split; [by apply main_seeding_raises|]. split; [done|]. left.
    split; [done|]. split; [intros ?%Hok; done|].
    destruct (Hraise e eq_refl) as (c & Hc & Hr). by exists e, c.
Qed.

(** Every run: quiet calls, then, if both names resolved, the construction. *)
Lemma run_main w conf :
  exists q evs r,
    main w conf [] = (q ++ evs, r)
    /\ quiet q
    /\ (evs = [] \/ exists d p, run_facts w conf d p evs r).
Proof.
  destruct (run_seeding w conf) as (pre & r0 & Hseed & Hquiet & _).
  destruct r0 as [u|e]; cycle 1.
  { exists pre, [], (Raise e). rewrite app_nil_r.
    split; [by apply main_seeding_raises|]. split; [done|by left]. }
  destruct (getitem conf "params.data_module_name") as [vd|e] eqn:Hd; cycle 1.
  { exists pre, [], (Raise e). rewrite app_nil_r.
    split; [by eapply main_data_missing|]. split; [done|by left]. }
  destruct (run_for_data_module conf vd [] Hd) as ([d|] & _ & Hrd); cycle 1.
  { eexists pre, [], _. rewrite app_nil_r.
    split; [eapply main_unknown_data; [done..|]|split; [done|by left]].
    intros m Hm. by apply Hrd in Hm. }
  assert (vd = CStr (DataModule__name__ d)) as -> by by apply Hrd.
  assert (Hq : quiet (pre ++ [logger_info (DataModule__name__ d +:+ " used")])).
  { apply quiet_app; [done|apply quiet_info]. }
  destruct (getitem conf "params.pl_module_name") as [vp|e] eqn:Hp; cycle 1.
  { eexists _, [], (Raise e). rewrite app_nil_r.
    split; [by eapply main_pl_missing|]. split; [done|by left]. }
  destruct (run_for_pl_module conf vp [] Hp) as ([p|] & _ & Hrp); cycle 1.
  { eexists _, [], _. rewrite app_nil_r.
    split; [eapply main_unknown_pl; [done..|]|split; [done|by left]].
    intros m Hm. by apply Hrp in Hm. }
  assert (vp = CStr (PlModule__name__ p)) as -> by by apply Hrp.
  destruct (main_resolved_cases w conf d p Hd Hp)
    as (q & evs & r & Hrun & Hq' & [(-> & _)|Hfacts]).
  - exists q, [], r. split; [done|]. split; [done|by left].
  - exists q, evs, r. split; [done|]. split; [done|]. right. by exists d, p.
Qed.

(** C4. Once seeding is through: a data module name that is no known name
    makes [main] raise the unknown-component error, which ends with that
    name, before any trainer exists; so does, after a known data module
    name, an unknown objective name.  With both names known, [main] raises
    such an error only if one of the calls it made raised it. *)
Theorem unknown_component_is_reported w conf :
  seeding_succeeds w conf ->
  (forall v,
     getitem conf "params.data_module_name" = Ok v ->
     (forall m, v <> CStr (DataModule__name__ m)) ->
     (main w conf []).2
     = Raise (NotImplementedError ("Unknown data module " +:+ str w v))
     /\ filter is_Trainer (main w conf []).1 = [])
  /\ (forall d v,
        getitem conf "params.data_module_name"
        = Ok (CStr (DataModule__name__ d)) ->
        getitem conf "params.pl_module_name" = Ok v ->
        (forall m, v <> CStr (PlModule__name__ m)) ->
        (main w conf []).2
        = Raise (NotImplementedError ("Unknown pl module " +:+ str w v))
        /\ filter is_Trainer (main w conf []).1 = [])
  /\ (forall d p,
        getitem conf "params.data_module_name"
        = Ok (CStr (DataModule__name__ d)) ->
        getitem conf "params.pl_module_name"
        = Ok (CStr (PlModule__name__ p)) ->
        forall msg,
          (main w conf []).2 = Raise (NotImplementedError msg) ->
          exists c, c ∈ (main w conf []).1
                    /\ respond w c = Raise (NotImplementedError msg)).
Proof.
  intros Hok.
  destruct (run_seeding w conf) as (pre & r0 & Hseed & Hquiet & Hr0 & _).
  rewrite (Hr0 Hok) in Hseed. clear Hr0.
  split; [|split].
  - intros v Hv Hno.
    rewrite (main_unknown_data w conf pre tt v Hseed Hv Hno). simpl.
    split; [done|]. by apply quiet_filter_Trainer.
  - intros d v Hd Hv Hno.
    rewrite (main_unknown_pl w conf pre tt d v Hseed Hd Hv Hno). simpl.
    split; [done|]. apply quiet_filter_Trainer, quiet_app; [done|].
    apply quiet_info.
  - intros d p Hd Hp msg.
    destruct (main_resolved_cases w conf d p Hd Hp)
      as (q & evs & r & -> & _ & [(_ & Hno & _)|Hfacts]); [done|].
    simpl. intros ->.
    destruct Hfacts as (_ & _ & Hraise & _).
    destruct (Hraise msg eq_refl) as (c & Hc & Hr).
    exists c. split; [|done]. apply elem_of_app. by right.
Qed.

(** C6. With both names resolved, the calls of [main] that build or run a
    component follow the steps of the spec in their order, as far as the run
    gets; and when the three blocks are there and the three constructions go
    through, all four steps are made. *)
Theorem components_are_built_in_order w conf d p :
  getitem conf "params.data_module_name" = Ok (CStr (DataModule__name__ d)) ->
  getitem conf "params.pl_module_name" = Ok (CStr (PlModule__name__ p)) ->
  follows_steps w conf p d (filter is_step (main w conf []).1)
  /\ (seeding_succeeds w conf ->
      forall params model block dm kwargs trainer,
        getitem conf "params" = Ok params ->
        respond w (new_pl_module p params) = Ok model ->
        getitem conf "data_module" = Ok block ->
        respond w (new_data_module d block model) = Ok dm ->
        getitem conf "trainer" = Ok (CTree kwargs) ->
        respond w (Trainer kwargs) = Ok trainer ->
        filter is_step (main w conf []).1
        = [new_pl_module p params; new_data_module d block model;
           Trainer kwargs; fit trainer model dm]).
Proof.
  intros Hd Hp.
  destruct (main_resolved_cases w conf d p Hd Hp)
    as (q & evs & r & -> & Hq & [(-> & Hno & _)|Hfacts]); simpl.
  - rewrite quiet_filter_step by done. split; [constructor|done].
  - rewrite quiet_filter_step by done.
    destruct Hfacts as (Hsteps & Hall & _). split; [done|]. intros _. exact Hall.
Qed.

(** A save is made only with a [model_path] key and after a run that went
    through; without the key no save is made, however the run goes. *)
Lemma save_only_after_fit w conf :
  (contains conf "model_path" = false ->
   filter is_save (main w conf []).1 = [])
  /\ (forall c, c ∈ (main w conf []).1 -> is_save c = true ->
        contains conf "model_path" = true
        /\ exists trainer model dm,
             fit trainer model dm ∈ (main w conf []).1
             /\ run_ok w (fit trainer model dm)).
Proof.
  destruct (run_main w conf) as (q & evs & r & -> & Hq & Hevs). simpl.
  rewrite quiet_filter_save by done.
  destruct Hevs as [->|(d & p & _ & _ & _ & Hnone & _ & Hsave)].
  - split; [done|]. intros c Hc Hs.
    apply (quiet_elem q []) in Hc; [|done|by right]. by apply elem_of_nil in Hc.
  - split; [done|]. intros c Hc Hs.
    apply (quiet_elem q evs) in Hc; [|done|by right].
    destruct (Hsave c Hc Hs) as (Hcontains & trainer & model & dm & Hfit & Hrun).
    split; [done|]. exists trainer, model, dm. split; [|done].
    apply elem_of_app. by right.
Qed.

(** Every way [construct_and_run] can go, as to where the save stands. *)
Lemma run_construct_and_run_order w conf d p tr0 :
  exists evs r,
    construct_and_run w conf d p tr0 = (tr0 ++ evs, r)
    /\ save_order w conf evs.
Proof.
  unfold construct_and_run, mbind, M_bind, call, lift, info, mret, M_ret.
  repeat run_case.
  all: rewrite <- ?app_assoc.
  all: lazymatch goal with
       | |- exists _ _, (?t ++ ?e, ?r) = _ /\ _ => exists e, r
       | |- exists _ _, (?t, ?r) = _ /\ _ => exists [], r; rewrite app_nil_r
       end.
  all: split; [reflexivity|].
  all: try match goal with
       | Hc : contains ?c ?k = true, Hg : getitem ?c ?k = Raise _ |- _ =>
           apply contains_getitem in Hc as [? ?]; congruence
       end.
  all: unfold save_order; cbn [app].
  all: intros trainer model dm Hin [u Hu].
  all: rewrite ?elem_of_cons, ?elem_of_nil in Hin; destruct_or?;
         simplify_eq/=.
  all: eexists [_; _; _], _; split; [reflexivity|]; split; [reflexivity|].
  all: split; intros ?.
  all: try congruence.
  all: by (eexists _, _; split; [eassumption|split; reflexivity]).
Qed.

(** Every run: quiet calls, then the calls of the construction. *)
Lemma run_main_order w conf :
  exists q evs r,
    main w conf [] = (q ++ evs, r) /\ quiet q /\ save_order w conf evs.
Proof.
  assert (Hnil : save_order w conf []).
  { intros trainer model dm Hin. by apply elem_of_nil in Hin. }
  destruct (run_seeding w conf) as (pre & r0 & Hseed & Hquiet & _).
  destruct r0 as [u|e]; cycle 1.
  { exists pre, [], (Raise e). rewrite app_nil_r.
    split; [by apply main_seeding_raises|done]. }
  destruct (getitem conf "params.data_module_name") as [vd|e] eqn:Hd; cycle 1.
  { exists pre, [], (Raise e). rewrite app_nil_r.
    split; [by eapply main_data_missing|done]. }
  destruct (run_for_data_module conf vd [] Hd) as ([d|] & _ & Hrd); cycle 1.
  { eexists pre, [], _. rewrite app_nil_r.
    split; [eapply main_unknown_data; [done..|]|done].
    intros m Hm. by apply Hrd in Hm. }
  assert (vd = CStr (DataModule__name__ d)) as -> by by apply Hrd.
  assert (Hq : quiet (pre ++ [logger_info (DataModule__name__ d +:+ " used")])).
  { apply quiet_app; [done|apply quiet_info]. }
  destruct (getitem conf "params.pl_module_name") as [vp|e] eqn:Hp; cycle 1.
  { eexists _, [], (Raise e). rewrite app_nil_r.
    split; [by eapply main_pl_missing|done]. }
  destruct (run_for_pl_module conf vp [] Hp) as ([p|] & _ & Hrp); cycle 1.
  { eexists _, [], _. rewrite app_nil_r.
    split; [eapply main_unknown_pl; [done..|]|done].
    intros m Hm. by apply Hrp in Hm. }
  assert (vp = CStr (PlModule__name__ p)) as -> by by apply Hrp.
  rewrite (main_resolved w conf pre u d p Hseed Hd Hp).
  destruct (run_construct_and_run_order w conf d p
              (pre ++ [logger_info (DataModule__name__ d +:+ " used");
                       logger_info (PlModule__name__ p +:+ " used")]))
    as (evs & r & Hrun & Horder).
  eexists _, evs, r. split; [exact Hrun|]. split; [|done].
  apply quiet_app; [done|]. by repeat constructor.
Qed.

(** C7. After a run that went through, the calls of [main] contain one save
    when the configuration has a [model_path] key (of weights only, to that
    path, by the trainer that ran) and none when it has not.  The save comes
    after the run: nothing is saved before the run, with the key the save is
    the call right after the run, and without it the run is the last
    call. *)
Theorem weights_saved_iff_model_path w conf trainer model dm :
  fit trainer model dm ∈ (main w conf []).1 ->
  run_ok w (fit trainer model dm) ->
  (contains conf "model_path" = true ->
   exists path,
     getitem conf "model_path" = Ok path
     /\ filter is_save (main w conf []).1 = [save_checkpoint trainer path true])
  /\ (contains conf "model_path" = false ->
      filter is_save (main w conf []).1 = [])
  /\ exists before after,
       (main w conf []).1 = before ++ fit trainer model dm :: after
       /\ filter is_save before = []
       /\ (contains conf "model_path" = true ->
           exists path rest,
             getitem conf "model_path" = Ok path
             /\ after = save_checkpoint trainer path true :: rest
             /\ filter is_save rest = [])
       /\ (contains conf "model_path" = false -> after = []).
Proof.
  intros Hfit Hrun. split; [|split; [apply save_only_after_fit|]].
  - revert Hfit.
    destruct (run_main w conf) as (q & evs & r & -> & Hq & Hevs). simpl.
    rewrite quiet_filter_save by done.
    intros Hfit Hcontains.
    apply (quiet_elem q evs) in Hfit; [|done|by left].
    destruct Hevs as [->|(d & p & _ & _ & _ & _ & Hsave & _)].
    + by apply elem_of_nil in Hfit.
    + by apply (Hsave trainer model dm).
  - revert Hfit.
    destruct (run_main_order w conf) as (q & evs & r & -> & Hq & Horder).
    simpl. intros Hfit.
    apply (quiet_elem q evs) in Hfit; [|done|by left].
    destruct (Horder trainer model dm Hfit Hrun)
      as (before & after & -> & Hbefore & Hafter).
    exists (q ++ before), after. split; [by rewrite app_assoc|].
    split; [|done]. rewrite quiet_filter_save by done. exact Hbefore.
Qed.

Lemma examples_seeding_succeeds conf :
  seeding_succeeds examples.world conf.
Proof. intros seed _. by exists 0. Qed.

Lemma unknown_component_is_reported_witness :
  seeding_succeeds examples.world examples.conf_unknown
  /\ (main examples.world examples.conf_unknown []).2
     = Raise (NotImplementedError "Unknown data module UnknownThing")
  /\ filter is_Trainer (main examples.world examples.conf_unknown []).1 = [].
Proof.
  split; [apply examples_seeding_succeeds|].
  destruct (unknown_component_is_reported examples.world examples.conf_unknown
              (examples_seeding_succeeds _)) as [Hdata _].
  apply (Hdata (CStr "UnknownThing")); [reflexivity|].
  intros []; discriminate.
Defined.

(** Scenario B of the spec, evaluated: seeding is the only call made. *)
Example scenario_B :
  main examples.world examples.conf_unknown []
  = ([seed_everything (CInt 42)],
     Raise (NotImplementedError "Unknown data module UnknownThing")).
Proof. reflexivity. Qed.

Lemma registry_resolves_by_exact_name_witness :
  (getitem examples.conf_no_path "params.data_module_name"
   = Ok (CStr "CpcDataModuleTrain")
   /\ getitem examples.conf_no_path "params.pl_module_name"
      = Ok (CStr "CoLESModule"))
  /\ for_data_module examples.conf_no_path
       [ColesDataModuleTrain; CpcDataModuleTrain] []
     = ([], Ok (Some CpcDataModuleTrain))
  /\ for_pl_module examples.conf_no_path [CoLESModule; CpcModule] []
     = ([], Ok (Some CoLESModule)).
Proof.
  split; [split; reflexivity|].
  destruct (registry_resolves_by_exact_name examples.conf_no_path []
              (CStr "CpcDataModuleTrain") (CStr "CoLESModule")
              eq_refl eq_refl)
    as ((rd & Hrd & Hd) & (rp & Hrp & Hp) & _).
  split.
  - rewrite Hrd. do 2 f_equal. by apply Hd.
  - rewrite Hrp. do 2 f_equal. by apply Hp.
Defined.

Lemma components_are_built_in_order_witness :
  (getitem examples.conf_no_path "params.data_module_name"
   = Ok (CStr (DataModule__name__ CpcDataModuleTrain))
   /\ getitem examples.conf_no_path "params.pl_module_name"
      = Ok (CStr (PlModule__name__ CoLESModule)))
  /\ filter is_step (main examples.world examples.conf_no_path []).1
     = [new_pl_module CoLESModule
          (CTree [("data_module_name", CStr "CpcDataModuleTrain");
                  ("pl_module_name", CStr "CoLESModule")]);
        new_data_module CpcDataModuleTrain
          (CTree [("train_batch_size", CInt 64)]) 1;
        Trainer [("max_epochs", CInt 10)];
        fit 3 1 2].
Proof.
  split; [split; reflexivity|].
  destruct (components_are_built_in_order examples.world examples.conf_no_path
              CpcDataModuleTrain CoLESModule eq_refl eq_refl) as [_ Hall].
  apply Hall; [apply examples_seeding_succeeds|reflexivity..].
Defined.

Lemma examples_fit_made :
  fit 3 1 2 ∈ (main examples.world examples.conf_path []).1.
Proof. apply list_elem_of_In. vm_compute. tauto. Qed.

Lemma weights_saved_iff_model_path_witness :
  (fit 3 1 2 ∈ (main examples.world examples.conf_path []).1
   /\ run_ok examples.world (fit 3 1 2))
  /\ exists path before rest,
       getitem examples.conf_path "model_path" = Ok path
       /\ filter is_save (main examples.world examples.conf_path []).1
          = [save_checkpoint 3 path true]
       /\ (main examples.world examples.conf_path []).1
          = before ++ fit 3 1 2 :: save_checkpoint 3 path true :: rest
       /\ filter is_save before = [].
Proof.
  assert (Hrun : run_ok examples.world (fit 3 1 2)) by by exists 0.
  split; [split; [exact examples_fit_made|exact Hrun]|].
  destruct (weights_saved_iff_model_path examples.world examples.conf_path
              3 1 2 examples_fit_made Hrun)
    as (Hsave & _ & before & after & Heq & Hbefore & Hafter & _).
  destruct (Hsave eq_refl) as (path & Hpath & Hfilter).
  destruct (Hafter eq_refl) as (path' & rest & Hpath' & -> & _).
  rewrite Hpath in Hpath'. injection Hpath' as <-.
  by exists path, before, rest.
Defined.

(** The calls of that run, evaluated: the save is the call after the run. *)
Example main_saves_after_fit :
  (main examples.world examples.conf_path []).1
  = [logger_info "CpcDataModuleTrain used"; logger_info "CoLESModule used";
     new_pl_module CoLESModule
       (CTree [("data_module_name", CStr "CpcDataModuleTrain");
               ("pl_module_name", CStr "CoLESModule")]);
     new_data_module CpcDataModuleTrain
       (CTree [("train_batch_size", CInt 64)]) 1;
     Trainer [("max_epochs", CInt 10)];
     fit 3 1 2;
     save_checkpoint 3 (CStr "model.p") true;
     logger_info ("Model weights saved to "
                  +:+ quote +:+ "model.p" +:+ quote)].
Proof. reflexivity. Qed.

(** Scenario C of the spec, evaluated: the run goes through and nothing is
    saved. *)
Example scenario_C :
  (main examples.world examples.conf_no_path []).2 = Ok tt
  /\ filter is_save (main examples.world examples.conf_no_path []).1 = [].
Proof. split; reflexivity. Qed.

(** *** How [main] fails and what it does first *)

Lemma seeding_cases w conf :
  (exists pre, seeded w conf pre /\ seeding w conf [] = (pre, Ok tt))
  \/ (exists seed e,
        getitem conf "seed_everything" = Ok seed
        /\ respond w (seed_everything seed) = Raise e
        /\ seeding w conf [] = ([seed_everything seed], Raise e)).
Proof.
  unfold seeding, mbind, M_bind, call, lift, mret, M_ret.
  destruct (contains conf "seed_everything") eqn:Hc.
  - apply contains_getitem in Hc as [seed Hseed]. rewrite Hseed.
    cbn beta iota.
    destruct (respond w (seed_everything seed)) as [r|e] eqn:Hr.
    + left. exists [seed_everything seed]. split; [|done].
      right. by exists seed, r.
    + right. by exists seed, e.
  - left. exists []. split; [by left|done].
Qed.

(** Every way [main] can go before the construction starts. *)
Lemma main_cases w conf :
  (exists seed e,
     getitem conf "seed_everything" = Ok seed
     /\ respond w (seed_everything seed) = Raise e
     /\ main w conf [] = ([seed_everything seed], Raise e))
  \/ exists pre,
       seeded w conf pre
       /\ ((exists e,
              getitem conf "params.data_module_name" = Raise e
              /\ main w conf [] = (pre, Raise e))
           \/ (exists v,
                 getitem conf "params.data_module_name" = Ok v
                 /\ (forall m, v <> CStr (DataModule__name__ m))
                 /\ main w conf []
                    = (pre, Raise (NotImplementedError
                                     ("Unknown data module " +:+ str w v))))
           \/ (exists d e,
                 getitem conf "params.data_module_name"
                 = Ok (CStr (DataModule__name__ d))
                 /\ getitem conf "params.pl_module_name" = Raise e
                 /\ main w conf []
                    = (pre ++ [logger_info (DataModule__name__ d +:+ " used")],
                       Raise e))
           \/ (exists d v,
                 getitem conf "params.data_module_name"
                 = Ok (CStr (DataModule__name__ d))
                 /\ getitem conf "params.pl_module_name" = Ok v
                 /\ (forall m, v <> CStr (PlModule__name__ m))
                 /\ main w conf []
                    = (pre ++ [logger_info (DataModule__name__ d +:+ " used")],
                       Raise (NotImplementedError
                                ("Unknown pl module " +:+ str w v))))
           \/ (exists d p,
                 getitem conf "params.data_module_name"
                 = Ok (CStr (DataModule__name__ d))
                 /\ getitem conf "params.pl_module_name"
                    = Ok (CStr (PlModule__name__ p))
                 /\ main w conf []
                    = construct_and_run w conf d p
                        (pre ++ [logger_info (DataModule__name__ d +:+ " used");
                                 logger_info (PlModule__name__ p +:+ " used")]))).
Proof.
  destruct (seeding_cases w conf)
    as [(pre & Hpre & Hseed)|(seed & e & Hs & Hr & Hseed)]; cycle 1.
  { left. exists seed, e. do 2 (split; [done|]).
    by apply main_seeding_raises. }
  right. exists pre. split; [done|].
  destruct (getitem conf "params.data_module_name") as [vd|e] eqn:Hd; cycle 1.
  { left. exists e. split; [done|]. by apply main_data_missing with tt. }
  destruct (run_for_data_module conf vd [] Hd) as ([d|] & _ & Hrd); cycle 1.
  { right. left. exists vd. split; [done|].
    assert (Hno : forall m, vd <> CStr (DataModule__name__ m)).
    { intros m Hm. by apply Hrd in Hm. }
    split; [done|]. by apply main_unknown_data with tt. }
  assert (vd = CStr (DataModule__name__ d)) as -> by by apply Hrd.
  destruct (getitem conf "params.pl_module_name") as [vp|e] eqn:Hp; cycle 1.
  { right. right. left. exists d, e. do 2 (split; [done|]).
    by apply main_pl_missing with tt. }
  destruct (run_for_pl_module conf vp [] Hp) as ([p|] & _ & Hrp); cycle 1.
  { right. right. right. left. exists d, vp. do 2 (split; [done|]).
    assert (Hno : forall m, vp <> CStr (PlModule__name__ m)).
    { intros m Hm. by apply Hrp in Hm. }
    split; [done|]. by apply main_unknown_pl with tt. }
  assert (vp = CStr (PlModule__name__ p)) as -> by by apply Hrp.
  right. right. right. right. exists d, p. do 2 (split; [done|]).
  by apply main_resolved with tt.
Qed.

(** Every way [construct_and_run] can go, as to failures. *)
Lemma run_construct_and_run_stops w conf d p tr0 :
  exists evs r,
    construct_and_run w conf d p tr0 = (tr0 ++ evs, r)
    /\ stop_facts w evs r.
Proof.
  unfold construct_and_run, mbind, M_bind, call, lift, info, mret, M_ret.
  repeat run_case.
  all: rewrite <- ?app_assoc.
  all: lazymatch goal with
       | |- exists _ _, (?t ++ ?e, ?r) = _ /\ _ => exists e, r
       | |- exists _ _, (?t, ?r) = _ /\ _ => exists [], r; rewrite app_nil_r
       end.
  all: split; [reflexivity|].
  all: try match goal with
       | Hc : contains ?c ?k = true, Hg : getitem ?c ?k = Raise _ |- _ =>
           apply contains_getitem in Hc as [? ?]; congruence
       end.
  all: unfold stop_facts; cbn [app].
  all: repeat match goal with
       | H : kwargs_of ?v = _ |- _ => destruct v; simplify_eq/=
       | H : getitem _ _ = Raise _ |- _ =>
           unfold getitem in H; case_match; simplify_eq
       end.
  all: split;
         [by (intros c Hc; rewrite ?elem_of_cons, ?elem_of_nil in Hc;
              destruct_or?; simplify_eq/=)|].
  all: split;
         [intros c e' Hc Hlog Hr; rewrite ?elem_of_cons, ?elem_of_nil in Hc;
          destruct_or?; simplify_eq/=; first [congruence|split; congruence]|].
  all: split.
  all: try (intros e' He'; simplify_eq).
  all: try (intros _; eexists _, _, _; split;
              [rewrite !elem_of_cons; naive_solver|by eexists]).
  all: try by (left; eexists; split; [done|]; split; [done|]; done).
  all: try by (right; left; eexists; split; [|done];
               rewrite !elem_of_cons; naive_solver).
  all: try by (right; right).
  all: by intros [=].
Qed.

Lemma seeded_seeding w conf pre :
  seeded w conf pre -> seeding w conf [] = (pre, Ok tt).
Proof.
  unfold seeding, mbind, M_bind, call, lift, mret, M_ret.
  intros [[Hc ->]|(seed & r & Hseed & Hr & ->)].
  - by rewrite Hc.
  - assert (Hc : contains conf "seed_everything" = true)
      by (apply contains_getitem; by exists seed).
    rewrite Hc, Hseed. cbn beta iota. by rewrite Hr.
Qed.

Lemma seeded_quiet w conf pre : seeded w conf pre -> quiet pre.
Proof. intros [[_ ->]|(s & r & _ & _ & ->)]; by repeat constructor. Qed.

Lemma getitem_Raise conf key e : getitem conf key = Raise e -> e = KeyError key.
Proof. unfold getitem. case_match; by intros [=]. Qed.

Lemma contains_false conf key :
  contains conf key = false -> getitem conf key = Raise (KeyError key).
Proof.
  intros Hc. destruct (getitem conf key) as [v|e] eqn:Hg.
  - assert (contains conf key = true) by (apply contains_getitem; by exists v).
    congruence.
  - by rewrite (getitem_Raise _ _ _ Hg).
Qed.

Lemma filter_seed_nil evs :
  (forall c, c ∈ evs -> is_seed c = false) -> filter is_seed evs = [].
Proof.
  induction evs as [|c evs IH]; intros Hall; [done|].
  rewrite filter_cons_False.
  - apply IH. intros c' Hc'. apply Hall. by right.
  - rewrite (Hall c) by by left. intros [].
Qed.

(** The calls of [main] once both names are resolved. *)
Lemma main_resolved_trace w conf pre d p :
  seeded w conf pre ->
  getitem conf "params.data_module_name" = Ok (CStr (DataModule__name__ d)) ->
  getitem conf "params.pl_module_name" = Ok (CStr (PlModule__name__ p)) ->
  exists evs r,
    main w conf []
    = ((pre ++ [logger_info (DataModule__name__ d +:+ " used");
                logger_info (PlModule__name__ p +:+ " used")]) ++ evs, r)
    /\ stop_facts w evs r
    /\ run_facts w conf d p evs r.
Proof.
  intros Hpre Hd Hp.
  rewrite (main_resolved w conf pre tt d p (seeded_seeding _ _ _ Hpre) Hd Hp).
  destruct (run_construct_and_run_stops w conf d p
              (pre ++ [logger_info (DataModule__name__ d +:+ " used");
                       logger_info (PlModule__name__ p +:+ " used")]))
    as (evs & r & Hrun & Hstop).
  destruct (run_construct_and_run w conf d p
              (pre ++ [logger_info (DataModule__name__ d +:+ " used");
                       logger_info (PlModule__name__ p +:+ " used")]))
    as (evs' & r' & Hrun' & Hfacts).
  rewrite Hrun in Hrun'. injection Hrun' as Hevs <-.
  apply app_inv_head in Hevs as <-.
  by exists evs, r.
Qed.

(** X13. Seeding is asked for by the [seed_everything] key alone: with the
    key, [main] makes the seeding call once, with the configured value and
    before anything else; without it, never. *)
Theorem seed_call_iff_key w conf :
  filter is_seed (main w conf []).1
  = match getitem conf "seed_everything" with
    | Ok seed => [seed_everything seed]
    | Raise _ => []
    end
  /\ forall seed,
       getitem conf "seed_everything" = Ok seed ->
       head (main w conf []).1 = Some (seed_everything seed).
Proof.
  destruct (main_cases w conf)
    as [(seed & e & Hs & _ & ->)|(pre & Hpre & Hcases)].
  { rewrite Hs. split; [done|]. by intros ? [= <-]. }
  assert (Hfilter : forall logs evs,
            Forall (fun c => is_log c = true) logs ->
            (forall c, c ∈ evs -> is_seed c = false) ->
            filter is_seed ((pre ++ logs) ++ evs)
            = match getitem conf "seed_everything" with
              | Ok seed => [seed_everything seed]
              | Raise _ => []
              end
            /\ forall seed,
                 getitem conf "seed_everything" = Ok seed ->
                 head ((pre ++ logs) ++ evs) = Some (seed_everything seed)).
  { intros logs evs Hlogs Hevs.
    assert (Hrest : filter is_seed (logs ++ evs) = []).
    { apply filter_seed_nil. intros c [Hc|Hc]%elem_of_app; [|by apply Hevs].
      rewrite Forall_forall in Hlogs. specialize (Hlogs c Hc). by destruct c. }
    rewrite <- app_assoc.
    destruct Hpre as [[Hc ->]|(seed & r & Hseed & _ & ->)].
    - rewrite (contains_false _ _ Hc). split; [done|]. by intros ? [=].
    - rewrite Hseed. simpl. rewrite filter_cons_True by done.
      rewrite Hrest. split; [done|]. by intros ? [= <-]. }
  destruct Hcases as [(e & _ & ->)|[(v & _ & _ & ->)|[(d & e & _ & _ & ->)
    |[(d & v & _ & _ & _ & ->)|(d & p & Hd & Hp & _)]]]]; simpl.
  - rewrite <- (app_nil_r pre), <- (app_nil_r (pre ++ [])).
    apply Hfilter; [constructor|by intros c ?%elem_of_nil].
  - rewrite <- (app_nil_r pre), <- (app_nil_r (pre ++ [])).
    apply Hfilter; [constructor|by intros c ?%elem_of_nil].
  - rewrite <- (app_nil_r (pre ++ _)).
    apply Hfilter; [by repeat constructor|by intros c ?%elem_of_nil].
  - rewrite <- (app_nil_r (pre ++ _)).
    apply Hfilter; [by repeat constructor|by intros c ?%elem_of_nil].
  - destruct (main_resolved_trace w conf pre d p Hpre Hd Hp)
      as (evs & r & -> & (Hnoseed & _) & _). simpl.
    apply Hfilter; [by repeat constructor|done].
Qed.

Lemma seeded_no_failure w conf pre c e :
  seeded w conf pre -> c ∈ pre -> respond w c = Raise e -> False.
Proof.
  intros [[_ ->]|(s & r & _ & Hr & ->)] Hc Hraise.
  - by apply elem_of_nil in Hc.
  - apply list_elem_of_singleton in Hc as ->. congruence.
Qed.

(** X14. A call that raises ends [main]: no call is made after it and its
    exception is the one [main] raises, unchanged. *)
Theorem failed_call_ends_main w conf c e :
  c ∈ (main w conf []).1 -> is_log c = false -> respond w c = Raise e ->
  last (main w conf []).1 = Some c /\ (main w conf []).2 = Raise e.
Proof.
  destruct (main_cases w conf)
    as [(seed & e' & _ & Hr & ->)|(pre & Hpre & Hcases)]; simpl.
  { intros ->%list_elem_of_singleton _ Hraise. split; [done|congruence]. }
  destruct Hcases as [(e' & _ & ->)|[(v & _ & _ & ->)|[(d & e' & _ & _ & ->)
    |[(d & v & _ & _ & _ & ->)|(d & p & Hd & Hp & _)]]]]; simpl.
  - intros Hc _ Hraise. by destruct (seeded_no_failure w conf pre c e).
  - intros Hc _ Hraise. by destruct (seeded_no_failure w conf pre c e).
  - intros [Hc|Hc]%elem_of_app Hlog Hraise;
      [|by apply list_elem_of_singleton in Hc as ->].
    by destruct (seeded_no_failure w conf pre c e).
  - intros [Hc|Hc]%elem_of_app Hlog Hraise;
      [|by apply list_elem_of_singleton in Hc as ->].
    by destruct (seeded_no_failure w conf pre c e).
  - destruct (main_resolved_trace w conf pre d p Hpre Hd Hp)
      as (evs & r & -> & (_ & Hstop & _) & _). simpl.
    intros [[Hc|Hc]%elem_of_app|Hc]%elem_of_app Hlog Hraise.
    + by destruct (seeded_no_failure w conf pre c e).
    + rewrite !elem_of_cons, elem_of_nil in Hc.
      destruct Hc as [->|[->|[]]]; done.
    + destruct (Hstop c e Hc Hlog Hraise) as [Hlast ->].
      split; [|done]. rewrite last_app, Hlast. done.
Qed.

(** Every way [construct_and_run] can go, as to where an exception comes
    from. *)
Lemma run_construct_and_run_raises w conf d p tr0 :
  exists evs r,
    construct_and_run w conf d p tr0 = (tr0 ++ evs, r)
    /\ raise_facts w conf evs r.
Proof.
  unfold construct_and_run, mbind, M_bind, call, lift, info, mret, M_ret.
  repeat run_case.
  all: rewrite <- ?app_assoc.
  all: lazymatch goal with
       | |- exists _ _, (?t ++ ?e, ?r) = _ /\ _ => exists e, r
       | |- exists _ _, (?t, ?r) = _ /\ _ => exists [], r; rewrite app_nil_r
       end.
  all: split; [reflexivity|].
  all: try match goal with
       | Hc : contains ?c ?k = true, Hg : getitem ?c ?k = Raise _ |- _ =>
           apply contains_getitem in Hc as [? ?]; congruence
       end.
  all: unfold raise_facts; cbn [app].
  all: intros e' He'; simplify_eq.
  all: try by (left; eexists; split; [done|]; split; [done|]; done).
  all: try by (right; left; eexists; split; [|eassumption];
               rewrite !elem_of_cons; naive_solver).
  all: by (right; right; eexists; split; eassumption).
Qed.

(** X15. Where an exception of [main] comes from, one of five places: the
    last call it made, whose exception is passed on; the look-up of one of
    the five required keys (never of the two optional ones), whose exception
    is passed on; the unpacking of a [trainer] entry that is no mapping; and
    the two unknown-component errors. *)
Theorem main_raises_only w conf e :
  (main w conf []).2 = Raise e ->
  (exists c, last (main w conf []).1 = Some c /\ is_log c = false
             /\ respond w c = Raise e)
  \/ (exists key,
        key ∈ ["params.data_module_name"; "params.pl_module_name";
               "params"; "data_module"; "trainer"]
        /\ getitem conf key = Raise e)
  \/ (exists options, getitem conf "trainer" = Ok options
                      /\ kwargs_of options = Raise e)
  \/ (exists v, getitem conf "params.data_module_name" = Ok v
                /\ e = NotImplementedError
                         ("Unknown data module " +:+ str w v))
  \/ (exists v, getitem conf "params.pl_module_name" = Ok v
                /\ e = NotImplementedError ("Unknown pl module " +:+ str w v)).
Proof.
  destruct (main_cases w conf)
    as [(seed & e' & _ & Hr & ->)|(pre & Hpre & Hcases)]; simpl.
  { intros [= <-]. left. by exists (seed_everything seed). }
  destruct Hcases as [(e' & He' & ->)|[(v & Hv & _ & ->)|[(d & e' & _ & He' & ->)
    |[(d & v & _ & Hv & _ & ->)|(d & p & Hd & Hp & ->)]]]]; simpl.
  - intros [= <-]. right. left. exists "params.data_module_name".
    split; [by left|done].
  - intros [= <-]. do 3 right. left. by exists v.
  - intros [= <-]. right. left. exists "params.pl_module_name".
    split; [right; by left|done].
  - intros [= <-]. do 4 right. by exists v.
  - destruct (run_construct_and_run_raises w conf d p
                (pre ++ [logger_info (DataModule__name__ d +:+ " used");
                         logger_info (PlModule__name__ p +:+ " used")]))
      as (evs & r & -> & Hkinds). simpl.
    intros ->.
    destruct (Hkinds e eq_refl)
      as [(c & Hlast & Hlog & Hraise)|[(key & Hkey & Hget)|Hkw]].
    + left. exists c. split; [|done]. by rewrite last_app, Hlast.
    + right. left. exists key. split; [|done].
      rewrite !elem_of_cons in Hkey. rewrite !elem_of_cons. tauto.
    + right. right. by left.
Qed.

(** X16. Nothing is built before both names are resolved: a call that builds
    or runs a component is only made when the configured names are those of
    a data module and of an objective. *)
Theorem nothing_built_unless_resolved w conf c :
  c ∈ (main w conf []).1 -> is_step c = true ->
  exists d p,
    getitem conf "params.data_module_name" = Ok (CStr (DataModule__name__ d))
    /\ getitem conf "params.pl_module_name" = Ok (CStr (PlModule__name__ p)).
Proof.
  destruct (main_cases w conf)
    as [(seed & e' & _ & Hr & ->)|(pre & Hpre & Hcases)]; simpl.
  { by intros ->%list_elem_of_singleton. }
  pose proof (seeded_quiet w conf pre Hpre) as Hquiet.
  assert (Hnot : forall logs,
            Forall (fun c => is_log c = true) logs ->
            c ∈ pre ++ logs -> is_step c = true -> False).
  { intros logs Hlogs [Hc|Hc]%elem_of_app Hstep.
    - unfold quiet in Hquiet. rewrite Forall_forall in Hquiet.
      destruct (Hquiet c Hc). congruence.
    - rewrite Forall_forall in Hlogs. specialize (Hlogs c Hc). by destruct c. }
  destruct Hcases as [(e' & _ & ->)|[(v & _ & _ & ->)|[(d & e' & _ & _ & ->)
    |[(d & v & _ & _ & _ & ->)|(d & p & Hd & Hp & _)]]]]; simpl.
  - rewrite <- (app_nil_r pre). intros Hc Hs.
    destruct (Hnot [] (Forall_nil_2 _) Hc Hs).
  - rewrite <- (app_nil_r pre). intros Hc Hs.
    destruct (Hnot [] (Forall_nil_2 _) Hc Hs).
  - intros Hc Hs. exfalso.
    eapply Hnot; [|exact Hc|exact Hs]. by repeat constructor.
  - intros Hc Hs. exfalso.
    eapply Hnot; [|exact Hc|exact Hs]. by repeat constructor.
  - intros _ _. by exists d, p.
Qed.

(** X17. [main] returns normally only after a training run that returned:
    both names were resolved and the call of the trainer's [fit] is among
    the calls made, and went through. *)
Theorem normal_return_means_fit_ran w conf :
  (main w conf []).2 = Ok tt ->
  exists d p trainer model dm,
    getitem conf "params.data_module_name" = Ok (CStr (DataModule__name__ d))
    /\ getitem conf "params.pl_module_name" = Ok (CStr (PlModule__name__ p))
    /\ fit trainer model dm ∈ (main w conf []).1
    /\ run_ok w (fit trainer model dm).
Proof.
  destruct (main_cases w conf)
    as [(seed & e' & _ & Hr & ->)|(pre & Hpre & Hcases)]; simpl; [done|].
  destruct Hcases as [(e' & _ & ->)|[(v & _ & _ & ->)|[(d & e' & _ & _ & ->)
    |[(d & v & _ & _ & _ & ->)|(d & p & Hd & Hp & _)]]]]; simpl; [done..|].
  destruct (main_resolved_trace w conf pre d p Hpre Hd Hp)
    as (evs & r & -> & (_ & _ & _ & Hok) & _). simpl.
  intros ->. destruct (Hok eq_refl) as (trainer & model & dm & Hfit & Hrun).
  exists d, p, trainer, model, dm. do 2 (split; [done|]).
  split; [|done]. apply elem_of_app. by right.
Qed.

(** X18. The whole of a run in which everything goes through: the optional
    seeding, the two notices of the resolved classes, the four steps, and,
    with a [model_path], the save and its notice; [main] returns normally. *)
Theorem main_success_trace w conf pre d p params model block dm kwargs
    trainer r :
  seeded w conf pre ->
  getitem conf "params.data_module_name" = Ok (CStr (DataModule__name__ d)) ->
  getitem conf "params.pl_module_name" = Ok (CStr (PlModule__name__ p)) ->
  getitem conf "params" = Ok params ->
  respond w (new_pl_module p params) = Ok model ->
  getitem conf "data_module" = Ok block ->
  respond w (new_data_module d block model) = Ok dm ->
  getitem conf "trainer" = Ok (CTree kwargs) ->
  respond w (Trainer kwargs) = Ok trainer ->
  respond w (fit trainer model dm) = Ok r ->
  (forall path, getitem conf "model_path" = Ok path ->
                run_ok w (save_checkpoint trainer path true)) ->
  main w conf []
  = (pre
     ++ [logger_info (DataModule__name__ d +:+ " used");
         logger_info (PlModule__name__ p +:+ " used");
         new_pl_module p params;
         new_data_module d block model;
         Trainer kwargs;
         fit trainer model dm]
     ++ match getitem conf "model_path" with
        | Ok path =>
            [save_checkpoint trainer path true;
             logger_info ("Model weights saved to "
                          +:+ quote +:+ str w path +:+ quote)]
        | Raise _ => []
        end,
     Ok tt).
Proof.
  intros Hpre Hd Hp Hparams Hmodel Hblock Hdm Hkw Htrainer Hfit Hsave.
  rewrite (main_resolved w conf pre tt d p (seeded_seeding _ _ _ Hpre) Hd Hp).
  unfold construct_and_run, mbind, M_bind, call, lift, info, mret, M_ret.
  rewrite Hparams. cbn beta iota. rewrite Hmodel, Hblock. cbn beta iota.
  rewrite Hdm, Hkw. cbn beta iota. simpl kwargs_of. cbn beta iota.
  rewrite Htrainer, Hfit.
  destruct (contains conf "model_path") eqn:Hc.
  - apply contains_getitem in Hc as [path Hpath]. rewrite Hpath.
    cbn beta iota. destruct (Hsave path Hpath) as [r' ->].
    by rewrite <- !app_assoc.
  - rewrite (contains_false _ _ Hc). by rewrite <- !app_assoc.
Qed.

(** X19. The [trainer] block is looked at last: when it is missing, or is no
    mapping, [main] raises only after the objective and the data component
    have been built (and builds no trainer). *)
Theorem trainer_block_is_checked_late w conf pre d p params model block dm e :
  seeded w conf pre ->
  getitem conf "params.data_module_name" = Ok (CStr (DataModule__name__ d)) ->
  getitem conf "params.pl_module_name" = Ok (CStr (PlModule__name__ p)) ->
  getitem conf "params" = Ok params ->
  respond w (new_pl_module p params) = Ok model ->
  getitem conf "data_module" = Ok block ->
  respond w (new_data_module d block model) = Ok dm ->
  getitem conf "trainer" ≫= kwargs_of = Raise e ->
  main w conf []
  = (pre ++ [logger_info (DataModule__name__ d +:+ " used");
             logger_info (PlModule__name__ p +:+ " used");
             new_pl_module p params;
             new_data_module d block model],
     Raise e)
  /\ (e = KeyError "trainer"
      \/ e = TypeError "argument after ** must be a mapping").
Proof.
  intros Hpre Hd Hp Hparams Hmodel Hblock Hdm He.
  rewrite (main_resolved w conf pre tt d p (seeded_seeding _ _ _ Hpre) Hd Hp).
  unfold construct_and_run, mbind, M_bind, call, lift, info, mret, M_ret.
  rewrite Hparams. cbn beta iota. rewrite Hmodel, Hblock. cbn beta iota.
  rewrite Hdm.
  destruct (getitem conf "trainer") as [options|e'] eqn:Hopt; simpl in He.
  - rewrite He. rewrite <- !app_assoc. split; [done|]. right.
    destruct options; simpl in He; congruence.
  - injection He as <-. rewrite <- !app_assoc. split; [done|]. left.
    by apply (getitem_Raise conf).
Qed.

(** X20. However a run goes, a save is only made with a [model_path] key
    and after a call of [fit] that returned; without the key none is made,
    also in runs that fail. *)
Theorem save_needs_key_and_fit w conf :
  (contains conf "model_path" = false ->
   filter is_save (main w conf []).1 = [])
  /\ (forall c, c ∈ (main w conf []).1 -> is_save c = true ->
        contains conf "model_path" = true
        /\ exists trainer model dm,
             fit trainer model dm ∈ (main w conf []).1
             /\ run_ok w (fit trainer model dm)).
Proof.
  destruct (run_main w conf) as (q & evs & r & -> & Hq & Hevs). simpl.
  rewrite quiet_filter_save by done.
  destruct Hevs as [->|(d & p & _ & _ & _ & Hnone & _ & Hsave)].
  - split; [done|]. intros c Hc Hs.
    apply (quiet_elem q []) in Hc; [|done|by right]. by apply elem_of_nil in Hc.
  - split; [done|]. intros c Hc Hs.
    apply (quiet_elem q evs) in Hc; [|done|by right].
    destruct (Hsave c Hc Hs) as (Hcontains & trainer & model & dm & Hfit & Hrun).
    split; [done|]. exists trainer, model, dm. split; [|done].
    apply elem_of_app. by right.
Qed.

(** *** The extra properties at concrete runs *)

Lemma failed_call_ends_main_witness :
  (new_data_module CpcDataModuleTrain
     (CTree [("train_batch_size", CInt 64)]) 1
   ∈ (main examples.broken_world examples.conf_no_path []).1
   /\ respond examples.broken_world
        (new_data_module CpcDataModuleTrain
           (CTree [("train_batch_size", CInt 64)]) 1)
      = Raise (RuntimeError "no data"))
  /\ last (main examples.broken_world examples.conf_no_path []).1
     = Some (new_data_module CpcDataModuleTrain
               (CTree [("train_batch_size", CInt 64)]) 1)
  /\ (main examples.broken_world examples.conf_no_path []).2
     = Raise (RuntimeError "no data").
Proof.
  assert (Hin : new_data_module CpcDataModuleTrain
                  (CTree [("train_batch_size", CInt 64)]) 1
                ∈ (main examples.broken_world examples.conf_no_path []).1).
  { apply list_elem_of_In. vm_compute. tauto. }
  split; [by split|].
  exact (failed_call_ends_main examples.broken_world examples.conf_no_path
           _ (RuntimeError "no data") Hin eq_refl eq_refl).
Defined.

Lemma main_raises_only_witness :
  (main examples.world examples.conf_unknown []).2
  = Raise (NotImplementedError "Unknown data module UnknownThing")
  /\ ((exists c,
         last (main examples.world examples.conf_unknown []).1 = Some c
         /\ is_log c = false
         /\ respond examples.world c
            = Raise (NotImplementedError "Unknown data module UnknownThing"))
      \/ (exists key,
            key ∈ ["params.data_module_name"; "params.pl_module_name";
                   "params"; "data_module"; "trainer"]
            /\ getitem examples.conf_unknown key
               = Raise (NotImplementedError "Unknown data module UnknownThing"))
      \/ (exists options,
            getitem examples.conf_unknown "trainer" = Ok options
            /\ kwargs_of options
               = Raise (NotImplementedError "Unknown data module UnknownThing"))
      \/ (exists v,
            getitem examples.conf_unknown "params.data_module_name" = Ok v
            /\ NotImplementedError "Unknown data module UnknownThing"
               = NotImplementedError
                   ("Unknown data module " +:+ str examples.world v))
      \/ (exists v,
            getitem examples.conf_unknown "params.pl_module_name" = Ok v
            /\ NotImplementedError "Unknown data module UnknownThing"
               = NotImplementedError
                   ("Unknown pl module " +:+ str examples.world v))).
Proof.
  split; [reflexivity|].
  exact (main_raises_only examples.world examples.conf_unknown _ eq_refl).
Defined.

Lemma nothing_built_unless_resolved_witness :
  fit 3 1 2 ∈ (main examples.world examples.conf_path []).1
  /\ exists d p,
       getitem examples.conf_path "params.data_module_name"
       = Ok (CStr (DataModule__name__ d))
       /\ getitem examples.conf_path "params.pl_module_name"
          = Ok (CStr (PlModule__name__ p)).
Proof.
  split; [exact examples_fit_made|].
  exact (nothing_built_unless_resolved examples.world examples.conf_path
           (fit 3 1 2) examples_fit_made eq_refl).
Defined.

Lemma normal_return_means_fit_ran_witness :
  (main examples.world examples.conf_no_path []).2 = Ok tt
  /\ exists d p trainer model dm,
       getitem examples.conf_no_path "params.data_module_name"
       = Ok (CStr (DataModule__name__ d))
       /\ getitem examples.conf_no_path "params.pl_module_name"
          = Ok (CStr (PlModule__name__ p))
       /\ fit trainer model dm
          ∈ (main examples.world examples.conf_no_path []).1
       /\ run_ok examples.world (fit trainer model dm).
Proof.
  split; [reflexivity|].
  exact (normal_return_means_fit_ran examples.world examples.conf_no_path
           eq_refl).
Defined.

Lemma examples_not_seeded conf :
  contains conf "seed_everything" = false -> seeded examples.world conf [].
Proof. intros Hc. by left. Qed.

Lemma main_success_trace_witness :
  seeded examples.world examples.conf_path []
  /\ main examples.world examples.conf_path []
     = ([logger_info "CpcDataModuleTrain used";
         logger_info "CoLESModule used";
         new_pl_module CoLESModule
           (CTree [("data_module_name", CStr "CpcDataModuleTrain");
                   ("pl_module_name", CStr "CoLESModule")]);
         new_data_module CpcDataModuleTrain
           (CTree [("train_batch_size", CInt 64)]) 1;
         Trainer [("max_epochs", CInt 10)];
         fit 3 1 2;
         save_checkpoint 3 (CStr "model.p") true;
         logger_info ("Model weights saved to " +:+ quote
                      +:+ "model.p" +:+ quote)],
        Ok tt).
Proof.
  split; [by apply examples_not_seeded|].
  apply (main_success_trace examples.world examples.conf_path []
           CpcDataModuleTrain CoLESModule _ 1 _ 2 _ 3 0);
    try reflexivity.
  - by apply examples_not_seeded.
  - intros path _. by exists 0.
Defined.

Lemma trainer_block_is_checked_late_witness :
  (seeded examples.world examples.conf_bad_trainer []
   /\ getitem examples.conf_bad_trainer "trainer" ≫= kwargs_of
      = Raise (TypeError "argument after ** must be a mapping"))
  /\ main examples.world examples.conf_bad_trainer []
     = ([logger_info "ColesDataModuleTrain used";
         logger_info "CpcModule used";
         new_pl_module CpcModule
           (CTree [("data_module_name", CStr "ColesDataModuleTrain");
                   ("pl_module_name", CStr "CpcModule")]);
         new_data_module ColesDataModuleTrain (CTree []) 1],
        Raise (TypeError "argument after ** must be a mapping")).
Proof.
  split; [split; [by apply examples_not_seeded|reflexivity]|].
  apply (trainer_block_is_checked_late examples.world examples.conf_bad_trainer
           [] ColesDataModuleTrain CpcModule _ 1 _ 2);
    try reflexivity.
  by apply examples_not_seeded.
Defined.

End dispatcher_facts.

(** The resolution order of [GptIterableDataset] over the hierarchy of the
    examples, and three names looked up in it: [MlmDataset] decides indexing
    and iteration, [IterableDataset] decides [__add__]. *)
Example GptIterableDataset_mro_example :
  gpt_dataset.GptIterableDataset_mro examples.imported_mro
  = Ok [gpt_dataset.GptIterableDataset; gpt_dataset.GptDataset;
        gpt_dataset.Imported "MlmDataset";
        gpt_dataset.Imported "IterableDataset";
        gpt_dataset.Imported "Dataset"; gpt_dataset.Imported "Generic";
        gpt_dataset.Imported "object"].
Proof. by vm_compute. Qed.

Example GptIterableDataset_getattr_example :
  let ns := gpt_dataset.namespace examples.imported_dict in
  forall mro,
    gpt_dataset.GptIterableDataset_mro examples.imported_mro = Ok mro ->
    py_class.getattr ns mro "__getitem__" = Some "MlmDataset.__getitem__"
    /\ py_class.getattr ns mro "__iter__" = Some "MlmDataset.__iter__"
    /\ py_class.getattr ns mro "__add__" = Some "IterableDataset.__add__".
Proof. intros ns mro [= <-]. repeat split; by vm_compute. Qed.

Lemma examples_MlmDataset_NoDup :
  NoDup (examples.imported_mro gpt_dataset.MlmDataset).
Proof. apply (bool_decide_unpack _). by vm_compute. Qed.



Lemma GptIterableDataset_mro_keeps_base_orders_witness :
  (NoDup (examples.imported_mro gpt_dataset.MlmDataset)
   /\ gpt_dataset.GptIterableDataset_mro examples.imported_mro
      = Ok [gpt_dataset.GptIterableDataset; gpt_dataset.GptDataset;
            gpt_dataset.Imported "MlmDataset";
            gpt_dataset.Imported "IterableDataset";
            gpt_dataset.Imported "Dataset"; gpt_dataset.Imported "Generic";
            gpt_dataset.Imported "object"])
  /\ NoDup [gpt_dataset.GptIterableDataset; gpt_dataset.GptDataset;
            gpt_dataset.Imported "MlmDataset";
            gpt_dataset.Imported "IterableDataset";
            gpt_dataset.Imported "Dataset"; gpt_dataset.Imported "Generic";
            gpt_dataset.Imported "object"].
Proof.
  split; [split; [exact examples_MlmDataset_NoDup|]|].
  { exact GptIterableDataset_mro_example. }
  destruct (GptIterableDataset_mro_keeps_base_orders examples.imported_mro
              eq_refl examples_MlmDataset_NoDup eq_refl _
              GptIterableDataset_mro_example) as (_ & Hnd & _).
  exact Hnd.
Defined.

Lemma GptIterableDataset_name_origin_witness :
  (gpt_dataset.GptIterableDataset_mro examples.imported_mro
   = Ok [gpt_dataset.GptIterableDataset; gpt_dataset.GptDataset;
         gpt_dataset.Imported "MlmDataset";
         gpt_dataset.Imported "IterableDataset";
         gpt_dataset.Imported "Dataset"; gpt_dataset.Imported "Generic";
         gpt_dataset.Imported "object"]
   /\ py_class.definer (gpt_dataset.namespace examples.imported_dict)
        (gpt_dataset.mro_of_imported examples.imported_mro
           gpt_dataset.IterableDataset) "__getitem__"
      = Some (gpt_dataset.Imported "Dataset")
   /\ gpt_dataset.Imported "Dataset"
      ∈ gpt_dataset.GptDataset
        :: gpt_dataset.mro_of_imported examples.imported_mro
             gpt_dataset.MlmDataset)
  /\ py_class.getattr (gpt_dataset.namespace examples.imported_dict)
       [gpt_dataset.GptIterableDataset; gpt_dataset.GptDataset;
        gpt_dataset.Imported "MlmDataset";
        gpt_dataset.Imported "IterableDataset";
        gpt_dataset.Imported "Dataset"; gpt_dataset.Imported "Generic";
        gpt_dataset.Imported "object"] "__getitem__"
     = py_class.getattr (gpt_dataset.namespace examples.imported_dict)
         (gpt_dataset.GptDataset
          :: gpt_dataset.mro_of_imported examples.imported_mro
               gpt_dataset.MlmDataset) "__getitem__".
Proof.
  assert (Hdef : py_class.definer
            (gpt_dataset.namespace examples.imported_dict)
            (gpt_dataset.mro_of_imported examples.imported_mro
               gpt_dataset.IterableDataset) "__getitem__"
          = Some (gpt_dataset.Imported "Dataset"))
    by by vm_compute.
  assert (Hin : gpt_dataset.Imported "Dataset"
                ∈ gpt_dataset.GptDataset
                  :: gpt_dataset.mro_of_imported examples.imported_mro
                       gpt_dataset.MlmDataset).
  { apply (bool_decide_unpack _). by vm_compute. }
  split; [split; [exact GptIterableDataset_mro_example|by split]|].
  destruct (GptIterableDataset_name_origin examples.imported_mro
              examples.imported_dict eq_refl examples_MlmDataset_NoDup eq_refl
              _ "__getitem__" GptIterableDataset_mro_example)
    as (_ & Hshared & _).
  exact (Hshared _ Hdef Hin).
Defined.
